(** * Variational autoencoder core: reparameterizers, recurrent memory, VRNN

    A shallow embedding of the Python sources

      - [reparameterizers/gumbel.py]             (modules [Gumbel], [GumbelKL])
      - [reparameterizers/isotropic_gaussian.py] (module [Gaussian])
      - [vrnn.py]                                (modules [Memory], [VRNN],
                                                  [VRNNLoss], [VRNNStep])
      - [abstract_vae.py]                        (modules [VAE], [MutInfo])

    Conventions.  Tensor entries are exact real numbers: rounding, overflow
    and infinities are not modelled.  The Gumbel-softmax sampler, which
    never tests for NaN, works on plain reals; the Gaussian
    reparameterizer, the memory, the VAE and the VRNN, which do, work on
    reals extended with one NaN value.  Python objects are records,
    attributes that may be absent are options, and every method that can
    raise returns a [result].  The global random generator of the tensor
    runtime is an explicit stream that is threaded through each call that
    draws from it; a draw is any real (in [0, 1) for the uniform draws of
    the examples).  Devices and precisions are not modelled.  A network is
    the function that it computes, and tensors that the runtime combines
    are taken to have the ranks and extents that it asks for, unless a
    definition says what happens otherwise. *)

From Stdlib Require Import String Reals Lra Lia ZArith Bool List.
Import ListNotations.

Set Implicit Arguments.
Open Scope R_scope.

(** ** Python exceptions and the result monad *)

Module Py.

Inductive exn : Type :=
| AssertionError (msg : string)
| AttributeError (attr : string)
| IndexError
| KeyError (key : string)
| ZeroDivisionError
| RuntimeError (msg : string)
| Exception (msg : string)
| NanHalt (name : string).

Inductive result (A : Type) : Type :=
| Ok (a : A)
| Raise (e : exn).

Arguments Ok {A} a.
Arguments Raise {A} e.

Definition bind {A B} (r : result A) (k : A -> result B) : result B :=
  match r with
  | Ok a => k a
  | Raise e => Raise e
  end.

Definition rmap {A B} (f : A -> B) (r : result A) : result B :=
  match r with
  | Ok a => Ok (f a)
  | Raise e => Raise e
  end.

Definition assert (b : bool) (msg : string) : result unit :=
  if b then Ok tt else Raise (AssertionError msg).

Definition is_ok {A} (r : result A) : bool :=
  match r with Ok _ => true | Raise _ => false end.

End Py.

Import Py.

Declare Scope py_scope.
Delimit Scope py_scope with py.
Notation "x <- c1 ;; c2" := (Py.bind c1 (fun x => c2))
  (at level 61, c1 at next level, right associativity) : py_scope.
Notation "' pat <- c1 ;; c2" := (Py.bind c1 (fun x => match x with pat => c2 end))
  (at level 61, pat pattern, c1 at next level, right associativity) : py_scope.
Notation "c1 ;;; c2" := (Py.bind c1 (fun _ => c2))
  (at level 61, right associativity) : py_scope.
Open Scope py_scope.

(** ** Methods that change their object

    A method that mutates its object is a function of the state before the
    call that gives the outcome and the state after it, also when the
    outcome is an exception: a caller that catches the exception sees the
    object as the raise left it. *)

Module St.

Definition M (S A : Type) : Type := S -> result A * S.

Definition ret {S A} (a : A) : M S A := fun s => (Ok a, s).

Definition bind {S A B} (c : M S A) (k : A -> M S B) : M S B :=
  fun s =>
    match c s with
    | (Ok a, s') => k a s'
    | (Raise e, s') => (Raise e, s')
    end.

Definition get {S} : M S S := fun s => (Ok s, s).

Definition modify {S} (f : S -> S) : M S unit := fun s => (Ok tt, f s).

Definition raise {S A} (e : exn) : M S A := fun s => (Raise e, s).

Definition lift {S A} (r : result A) : M S A := fun s => (r, s).

End St.

Declare Scope st_scope.
Delimit Scope st_scope with st.
Notation "x <~ c1 ;; c2" := (St.bind c1 (fun x => c2))
  (at level 61, c1 at next level, right associativity) : st_scope.
Notation "' pat <~ c1 ;; c2" := (St.bind c1 (fun x => match x with pat => c2 end))
  (at level 61, pat pattern, c1 at next level, right associativity) : st_scope.
Notation "c1 ;;~ c2" := (St.bind c1 (fun _ => c2))
  (at level 61, right associativity) : st_scope.
Open Scope st_scope.

(** ** The tensor runtime *)

Module Torch.

(** A tensor is its shape together with its vectors along the last axis,
    in row-major order: a [[b; k]] tensor has [b] rows of [k] entries, a
    [[b; t; k]] tensor has [b * t] of them. *)
Record tensor (A : Type) : Type := mkTensor {
  shape : list nat;
  rows : list (list A)
}.

Arguments mkTensor {A} shape rows.

Section Generic.
Context {A B C : Type}.

Definition dim (t : tensor A) : nat := length (shape t).

(** [t.size(-1)] *)
Definition size_last (t : tensor A) : nat := last (shape t) O.

(** [t.size(0)] *)
Definition size0 (t : tensor A) : nat := hd O (shape t).

Fixpoint zip_with (f : A -> B -> C) (l : list A) (m : list B) : list C :=
  match l, m with
  | a :: l', b :: m' => f a b :: zip_with f l' m'
  | _, _ => []
  end.

Definition tmap (f : A -> B) (t : tensor A) : tensor B :=
  mkTensor (shape t) (map (map f) (rows t)).

(** A function of each last-axis vector, as [softmax(dim=-1)]. *)
Definition tmap_rows (f : list A -> list B) (t : tensor A) : tensor B :=
  mkTensor (shape t) (map f (rows t)).

Fixpoint chunks (w n : nat) (l : list A) : list (list A) :=
  match n with
  | O => []
  | S n' => firstn w l :: chunks w n' (skipn w l)
  end.

End Generic.

(** Entrywise operation on two tensors of one shape. *)
Definition tzip {A B C} (f : A -> B -> C) (t : tensor A) (u : tensor B) : tensor C :=
  mkTensor (shape t) (zip_with (zip_with f) (rows t) (rows u)).

Definition numel (s : list nat) : nat := fold_right Nat.mul 1%nat s.

(** The tensor of shape [s] whose entries are [l], row-major. *)
Definition fill {A} (s : list nat) (l : list A) : tensor A :=
  mkTensor s (chunks (last s 1%nat) (numel (removelast s)) l).

(** The state of the random generator: the draws still to come. *)
Definition rng : Type := nat -> R.

Definition draws (n : nat) (g : rng) : list R * rng :=
  (map g (seq 0 n), fun i => g (n + i)%nat).

(** [torch.rand(size)]: uniform draws from [0, 1). *)
Definition rand (s : list nat) (g : rng) : tensor R * rng :=
  let (v, g') := draws (numel s) g in (fill s v, g').

(** Sum of the entries of a vector. *)
Definition rsum (l : list R) : R := fold_right Rplus 0 l.

(** [F.softmax] and [F.log_softmax] along the last axis. *)
Definition softmax_row (l : list R) : list R :=
  map (fun a => exp a / rsum (map exp l)) l.

Definition log_softmax_row (l : list R) : list R :=
  map (fun a => a - ln (rsum (map exp l))) l.

(** [torch.max(dim=-1)] of one vector (the reduction of a vector with no
    entry is not defined by the runtime; the value here is 0). *)
Definition max_row (l : list R) : R :=
  match l with
  | [] => 0
  | a :: l' => fold_left Rmax l' a
  end.

(** [a > b] on Python floats. *)
Definition Rgtb (a b : R) : bool := if Rlt_dec b a then true else false.

(** [torch.eq(a, b).type(float)] on one entry. *)
Definition eq_float (a b : R) : R := if Req_dec_T a b then 1 else 0.

(** *** Entries that may be NaN *)

(** A real number or NaN.  The operations propagate NaN; they are exact on
    real arguments. *)
Inductive float : Type :=
| Fin (r : R)
| NaN.

Definition lift1 (f : R -> R) (a : float) : float :=
  match a with
  | Fin x => Fin (f x)
  | NaN => NaN
  end.

Definition lift2 (f : R -> R -> R) (a b : float) : float :=
  match a, b with
  | Fin x, Fin y => Fin (f x y)
  | _, _ => NaN
  end.

Definition fadd : float -> float -> float := lift2 Rplus.
Definition fsub : float -> float -> float := lift2 Rminus.
Definition fmul : float -> float -> float := lift2 Rmult.
Definition fexp : float -> float := lift1 exp.

Definition is_nan (a : float) : bool :=
  match a with
  | Fin _ => false
  | NaN => true
  end.

(** Whether some entry of the tensor is NaN. *)
Definition has_nan (t : tensor float) : bool :=
  existsb (existsb is_nan) (rows t).

Definition fsum (l : list float) : float := fold_right fadd (Fin 0) l.

(** [torch.mean(t)]: the mean of all entries, NaN for a tensor with none. *)
Definition mean (t : tensor float) : float :=
  match concat (rows t) with
  | [] => NaN
  | l => fmul (fsum l) (Fin (/ INR (length l)))
  end.

(** [torch.zeros(shape)] *)
Definition zeros (s : list nat) : tensor float :=
  fill s (repeat (Fin 0) (numel s)).

(** [tensor.normal_(mean, std)]: a tensor of draws, each the mean plus the
    deviation times a standard-normal draw. *)
Definition normal_ (s : list nat) (mu sd : R) (g : rng) : tensor float * rng :=
  let (v, g') := draws (numel s) g in
  (fill s (map (fun n => Fin (mu + sd * n)) v), g').

(** The shape with its last extent replaced. *)
Definition with_last (s : list nat) (k : nat) : list nat :=
  removelast s ++ [k].

(** [t[..., lo:]] and [t[..., :hi]] on the last axis. *)
Definition slice_to {A} (hi : nat) (t : tensor A) : tensor A :=
  mkTensor (with_last (shape t) (Nat.min hi (size_last t)))
           (map (firstn hi) (rows t)).

Definition slice_from {A} (lo : nat) (t : tensor A) : tensor A :=
  mkTensor (with_last (shape t) (size_last t - lo))
           (map (skipn lo) (rows t)).

(** [torch.cat(ts, 0)]: the tensors one after the other along the first
    axis.  An empty list is refused by the runtime.  (The tensors are taken
    to agree on the other extents.) *)
Definition cat0 {A} (ts : list (tensor A)) : result (tensor A) :=
  match ts with
  | [] => Raise (RuntimeError "expected a non-empty list of Tensors")
  | t :: _ =>
      Ok (mkTensor (fold_right (fun u n => (size0 u + n)%nat) O ts :: tl (shape t))
                   (concat (map (fun u => rows u) ts)))
  end.

(** [torch.cat([t, u], -1)]: each vector of [t] followed by the vector of
    [u] at the same position. *)
Definition cat_last {A} (t u : tensor A) : tensor A :=
  mkTensor (with_last (shape t) (size_last t + size_last u))
           (zip_with (@app A) (rows t) (rows u)).

(** Entrywise mean of a list of vectors. *)
Definition vmean (vs : list (list float)) : list float :=
  match vs with
  | [] => []
  | v :: vs' =>
      map (fun x => fmul x (Fin (/ INR (length vs))))
          (fold_left (zip_with fadd) vs' v)
  end.

(** [torch.mean(t, 0)] of a tensor of rank at least 2: the mean over the
    first axis. *)
Definition mean0 (t : tensor float) : tensor float :=
  let n := size0 t in
  let b := numel (removelast (tl (shape t))) in
  mkTensor (tl (shape t))
           (map (fun j => vmean (map (fun i => nth (i * b + j) (rows t) []) (seq 0 n)))
                (seq 0 b)).

End Torch.

Import Torch.

(** ** reparameterizers/gumbel.py *)

Module Gumbel.

(** The attributes of a [GumbelSoftmax] object that its methods read or
    write.  [dim] is the last axis, the constructor's default. *)
Record GumbelSoftmax : Type := mkGumbel {
  training : bool;
  iteration : Z;
  tau : R;
  tau0 : R;
  anneal_rate : R;
  min_temp : R;
  discrete_size : nat;
  cuda : bool
}.

(** The parameter record built by [forward]. *)
Record params : Type := mkParams {
  z_hard : tensor R;
  logits : tensor R;
  log_q_z : tensor R;
  tau_scalar : R
}.

Record out_params : Type := mkOut {
  z : tensor R;
  discrete : params
}.

(** [_setup_anneal_params]: the values that it gives to [tau], [tau0],
    [anneal_rate] and [min_temp]. *)
Definition _setup_anneal_params : R * R * R * R :=
  (1, 1, 3 / 1000000, 1 / 2).

(** [__init__]; a fresh module is in training mode. *)
Definition init (discrete_size : nat) (cuda : bool) : GumbelSoftmax :=
  let '(tau, tau0, anneal_rate, min_temp) := _setup_anneal_params in
  {| training := true;
     iteration := 0%Z;
     tau := tau;
     tau0 := tau0;
     anneal_rate := anneal_rate;
     min_temp := min_temp;
     discrete_size := discrete_size;
     cuda := cuda |}.

Definition set_tau (t : R) (g : GumbelSoftmax) : GumbelSoftmax :=
  {| training := training g; iteration := iteration g; tau := t;
     tau0 := tau0 g; anneal_rate := anneal_rate g; min_temp := min_temp g;
     discrete_size := discrete_size g; cuda := cuda g |}.

Definition set_iteration (i : Z) (g : GumbelSoftmax) : GumbelSoftmax :=
  {| training := training g; iteration := i; tau := tau g;
     tau0 := tau0 g; anneal_rate := anneal_rate g; min_temp := min_temp g;
     discrete_size := discrete_size g; cuda := cuda g |}.

(** [nn.Module.train(mode)] *)
Definition train (mode : bool) (g : GumbelSoftmax) : GumbelSoftmax :=
  {| training := mode; iteration := iteration g; tau := tau g;
     tau0 := tau0 g; anneal_rate := anneal_rate g; min_temp := min_temp g;
     discrete_size := discrete_size g; cuda := cuda g |}.

(** The guard of [anneal]; the conjunction is short-circuit, so the
    remainder is only taken (and can only fail) in training mode at a
    positive iteration. *)
Definition anneal_due (anneal_interval : Z) (g : GumbelSoftmax) : result bool :=
  if training g then
    if (0 <? iteration g)%Z then
      if (anneal_interval =? 0)%Z then Raise ZeroDivisionError
      else Ok (iteration g mod anneal_interval =? 0)%Z
    else Ok false
  else Ok false.

Definition annealed_tau (g : GumbelSoftmax) : R :=
  let rate := - anneal_rate g * IZR (iteration g) in
  Rmax (tau0 g * exp rate) (min_temp g).

Definition anneal (anneal_interval : Z) (g : GumbelSoftmax) : result GumbelSoftmax :=
  due <- anneal_due anneal_interval g ;;
  Ok (if due then set_tau (annealed_tau g) g else g).

(** The noise transform [-ln(-ln(U + eps) + eps)], written in the source as
    two rounds of [add_(eps).log_().neg_()]. *)
Definition gumbel_noise (eps u : R) : R :=
  - ln (- ln (u + eps) + eps).

Definition eps_default : R := 1 / 1000000000.

(** [_gumbel_softmax(x, tau)] *)
Definition _gumbel_softmax (x : tensor R) (tau : R) (g : rng) : tensor R * rng :=
  let (noise, g') := rand (shape x) g in
  let noise := tmap (gumbel_noise eps_default) noise in
  let x := tmap (fun a => a / tau) (tzip Rplus x noise) in
  let x := tmap_rows softmax_row (tmap (fun a => a + eps_default) x) in
  (x, g').

(** The hard version of one soft vector: [eq(y_max, y)] as floats, then
    [(y_hard - y).detach() + y]. *)
Definition hard_row (y : list R) : list R :=
  let y_max := max_row y in
  let y_hard := map (eq_float y_max) y in
  let y_hard_diff := zip_with Rminus y_hard y in
  zip_with Rplus y_hard_diff y.

(** [sample_gumbel(x, tau, hard)] *)
Definition sample_gumbel (x : tensor R) (tau : R) (hard : bool) (g : rng)
  : (tensor R * option (tensor R)) * rng :=
  let (y, g') := _gumbel_softmax x tau g in
  if hard then ((y, Some (tmap_rows hard_row y)), g')
  else ((y, None), g').

(** [reparmeterize(logits)]; [sample_gumbel] is called with [hard=True],
    and the views to the shape of the logits keep the entries. *)
Definition reparmeterize (m : GumbelSoftmax) (lg : tensor R) (g : rng)
  : result ((tensor R * tensor R * tensor R) * rng) :=
  let log_q_z := tmap_rows log_softmax_row lg in
  let '((z, z_hard), g') := sample_gumbel lg (tau m) true g in
  match z_hard with
  | Some z_hard => Ok ((z, z_hard, log_q_z), g')
  | None => Raise (AttributeError "view")
  end.


(** [forward(logits)] *)
Definition forward (m : GumbelSoftmax) (lg : tensor R) (g : rng)
  : result ((tensor R * out_params) * GumbelSoftmax * rng) :=
  m1 <- anneal 10 m ;;
  '((z, z_hard, log_q_z), g') <- reparmeterize m1 lg g ;;
  let params := {| z_hard := z_hard; logits := lg; log_q_z := log_q_z;
                   tau_scalar := tau m1 |} in
  let m2 := set_iteration (iteration m1 + 1) m1 in
  if training m2 then Ok ((z, {| z := z; discrete := params |}), m2, g')
  else Ok ((z_hard, {| z := z; discrete := params |}), m2, g').


End Gumbel.

(** ** helpers.utils *)

Module Helpers.

(** Modelled from the spec: [helpers.utils.nan_check_and_break], which is
    not among the sources.  The spec has every checked tensor "checked for
    NaN" and the computation halt "fatally if found"; the halt is the
    exception [NanHalt], carrying the name that the caller passes. *)
Definition nan_check_and_break (t : tensor float) (name : string) : result unit :=
  if has_nan t then Raise (NanHalt name) else Ok tt.

End Helpers.

Import Helpers.

(** ** reparameterizers/isotropic_gaussian.py *)

Module Gaussian.

(** The attributes of an [IsotropicGaussian] object: the module's mode and
    the configuration keys that it reads. *)
Record IsotropicGaussian : Type := mkGaussian {
  training : bool;
  continuous_size : nat;
  half : bool;
  cuda : bool
}.

Definition input_size (m : IsotropicGaussian) : nat := continuous_size m.
Definition output_size (m : IsotropicGaussian) : nat := (continuous_size m / 2)%nat.

(** [__init__(config)]: fails unless [continuous_size] is even; a fresh
    module is in training mode. *)
Definition init (continuous_size : nat) (half cuda : bool) : result IsotropicGaussian :=
  Py.assert (continuous_size mod 2 =? 0)%nat "" ;;;
  Ok {| training := true; continuous_size := continuous_size;
        half := half; cuda := cuda |}.

(** [nn.Module.train(mode)] *)
Definition train (mode : bool) (m : IsotropicGaussian) : IsotropicGaussian :=
  {| training := mode; continuous_size := continuous_size m;
     half := half m; cuda := cuda m |}.

(** The dictionary built by [_reparametrize_gaussian]; [forward] adds the
    two means to it. *)
Record params : Type := mkParams {
  mu : tensor float;
  logvar : tensor float;
  mu_mean : option float;
  logvar_mean : option float
}.

Record out_params : Type := mkOut {
  z : tensor float;
  logits : tensor float;
  gaussian : params
}.

Section WithEps.

(** [helpers.utils.eps], the small constant chosen by the precision flag;
    its definition is not among the sources. *)
Variable eps_fn : bool -> R.

(** The dictionary [{'mu': mu, 'logvar': logvar}]. *)
Definition mu_logvar (mu logvar : tensor float) : params :=
  {| mu := mu; logvar := logvar; mu_mean := None; logvar_mean := None |}.

(** [_reparametrize_gaussian(mu, logvar)] *)
Definition _reparametrize_gaussian (m : IsotropicGaussian)
    (mu logvar : tensor float) (g : rng)
  : result ((tensor float * params) * rng) :=
  if training m then
    let std := tmap (fun v => fexp (fmul v (Fin (1 / 2)))) logvar in
    let (eps, g') := normal_ (shape logvar) 0 1 g in
    nan_check_and_break logvar "logvar" ;;;
    Ok ((tzip fadd (tzip fmul eps std) mu, mu_logvar mu logvar), g')
  else
    Ok ((mu, mu_logvar mu logvar), g).

(** [reparmeterize(logits)] *)
Definition reparmeterize (m : IsotropicGaussian) (lg : tensor float) (g : rng)
  : result ((tensor float * params) * rng) :=
  let eps := eps_fn (half m) in
  let feature_size := size_last lg in
  Py.assert ((feature_size mod 2 =? 0) && (feature_size / 2 =? output_size m))%nat "" ;;;
  if (dim lg =? 2)%nat then
    let mu := slice_to (feature_size / 2) lg in
    nan_check_and_break mu "mu" ;;;
    let sigma := tmap (fun v => fadd v (Fin eps)) (slice_from (feature_size / 2) lg) in
    _reparametrize_gaussian m mu sigma g
  else if (dim lg =? 3)%nat then
    let mu := slice_to (feature_size / 2) lg in
    let sigma := tmap (fun v => fadd v (Fin eps)) (slice_from (feature_size / 2) lg) in
    _reparametrize_gaussian m mu sigma g
  else
    Raise (Exception "unknown number of dims for isotropic gauss reparam").

(** [prior(batch_size, scale_var=...)]; [scale_var] defaults to 1. *)
Definition prior (m : IsotropicGaussian) (batch_size : nat) (scale_var : option R)
    (g : rng) : tensor float * rng :=
  let scale_var := match scale_var with Some v => v | None => 1 end in
  normal_ [batch_size; output_size m] 0 scale_var g.

(** [forward(logits)] *)
Definition forward (m : IsotropicGaussian) (lg : tensor float) (g : rng)
  : result ((tensor float * out_params) * rng) :=
  '((z, gauss_params), g') <- reparmeterize m lg g ;;
  let gauss_params :=
    {| mu := mu gauss_params; logvar := logvar gauss_params;
       mu_mean := Some (mean (mu gauss_params));
       logvar_mean := Some (mean (logvar gauss_params)) |} in
  Ok ((z, {| z := z; logits := lg; gaussian := gauss_params |}), g').

End WithEps.

End Gaussian.

(** ** vrnn.py: the recurrent memory *)

Module Memory.

(** The LSTM state [(h, c)] and an entry of the history buffer,
    [[output, (h, c)]]. *)
Definition state_t : Type := (tensor float * tensor float)%type.
Definition snapshot : Type := (tensor float * state_t)%type.

(** A [VRNNMemory] object.  [memory_buffer] is set by [__init__], so every
    object has it; [state] is set by [init_state] and by [update], and
    [outputs] by [update] only, so they may be absent.  The wrapped cell
    [model] is a function of the input and the state.  Devices and
    precisions of tensors are not modelled, so the [cuda] argument of
    [init_state] is left out. *)
Record VRNNMemory : Type := mkMemory {
  training : bool;
  model : tensor float -> state_t -> tensor float * state_t;
  use_noisy_rnn_state : bool;
  n_layers : nat;
  bidirectional : bool;
  h_dim : nat;
  memory_buffer : list snapshot;
  state : option state_t;
  outputs : option (tensor float)
}.

(** [__init__] *)
Definition init (h_dim n_layers : nat) (bidirectional use_noisy_rnn_state : bool)
    (rnn : tensor float -> state_t -> tensor float * state_t) : VRNNMemory :=
  {| training := true; model := rnn; use_noisy_rnn_state := use_noisy_rnn_state;
     n_layers := n_layers; bidirectional := bidirectional; h_dim := h_dim;
     memory_buffer := []; state := None; outputs := None |}.

Definition set_buffer (b : list snapshot) (m : VRNNMemory) : VRNNMemory :=
  {| training := training m; model := model m;
     use_noisy_rnn_state := use_noisy_rnn_state m;
     n_layers := n_layers m; bidirectional := bidirectional m; h_dim := h_dim m;
     memory_buffer := b; state := state m; outputs := outputs m |}.

Definition set_state (s : state_t) (m : VRNNMemory) : VRNNMemory :=
  {| training := training m; model := model m;
     use_noisy_rnn_state := use_noisy_rnn_state m;
     n_layers := n_layers m; bidirectional := bidirectional m; h_dim := h_dim m;
     memory_buffer := memory_buffer m; state := Some s; outputs := outputs m |}.

Definition set_outputs (o : tensor float) (m : VRNNMemory) : VRNNMemory :=
  {| training := training m; model := model m;
     use_noisy_rnn_state := use_noisy_rnn_state m;
     n_layers := n_layers m; bidirectional := bidirectional m; h_dim := h_dim m;
     memory_buffer := memory_buffer m; state := state m; outputs := Some o |}.

(** [hasattr(self, 'memory_buffer')]: it holds of every object, [__init__]
    having set the attribute and no method removing it. *)
Definition has_memory_buffer (m : VRNNMemory) : bool := true.

Definition _state_from_tuple (tpl : snapshot) : state_t := snd tpl.

Definition _output_from_tuple (tpl : snapshot) : tensor float := fst tpl.

(** [_append_to_buffer(tpl)]; a clone has the entries of its original. *)
Definition _append_to_buffer (tpl : snapshot) (m : VRNNMemory) : VRNNMemory :=
  let '(output_t, state_t) := tpl in
  set_buffer (memory_buffer m ++ [(output_t, (fst state_t, snd state_t))]) m.

(** [clear()] *)
Definition clear (m : VRNNMemory) : VRNNMemory := set_buffer [] m.

(** The inner [_init] of [init_state]: one tensor of the state. *)
Definition _init (m : VRNNMemory) (batch_size : nat) (override_noisy_state : bool)
    (g : rng) : tensor float * rng :=
  let num_directions := if bidirectional m then 2%nat else 1%nat in
  let shp := [(num_directions * n_layers m)%nat; batch_size; h_dim m] in
  if override_noisy_state || (training m && use_noisy_rnn_state m)
  then normal_ shp 0 (1 / 100) g
  else (zeros shp, g).

(** [init_state(batch_size, override_noisy_state)] *)
Definition init_state (m : VRNNMemory) (batch_size : nat) (override_noisy_state : bool)
    (g : rng) : VRNNMemory * rng :=
  let (h, g1) := _init m batch_size override_noisy_state g in
  let (c, g2) := _init m batch_size override_noisy_state g1 in
  (set_state (h, c) m, g2).

(** [update(tpl)] *)
Definition update (tpl : snapshot) (m : VRNNMemory) : VRNNMemory :=
  let m := _append_to_buffer tpl m in
  set_state (snd tpl) (set_outputs (fst tpl) m).

(** [get_state()] *)
Definition get_state (m : VRNNMemory) : result state_t :=
  match state m with
  | Some s => Ok s
  | None => Raise (AssertionError "do a forward pass first")
  end.

(** [get_output()] *)
Definition get_output (m : VRNNMemory) : result (tensor float) :=
  match outputs m with
  | Some o => Ok o
  | None => Raise (AssertionError "do a forward pass first")
  end.

(** [forward(input_t, reset_state)]; reading [self.state] of an object that
    has none is an [AttributeError]. *)
Definition forward (m : VRNNMemory) (input_t : tensor float) (reset_state : bool)
    (g : rng) : result (tensor float * VRNNMemory * rng) :=
  let batch_size := size0 input_t in
  let (m, g) := if reset_state then init_state m batch_size false g else (m, g) in
  st <- match state m with
        | Some s => Ok s
        | None => Raise (AttributeError "state")
        end ;;
  let m := update (model m input_t st) m in
  out <- get_output m ;;
  Ok (out, m, g).

(** [get_merged_memory()] *)
Definition get_merged_memory (m : VRNNMemory) : result (tensor float) :=
  Py.assert (has_memory_buffer m) "do a forward pass first" ;;;
  mem_concat <- cat0 (map (fun mem => fst (_state_from_tuple mem)) (memory_buffer m)) ;;
  Ok (mean0 mem_concat).

(** [get_final_memory()]; [memory_buffer[-1]] of an empty list is an
    [IndexError]. *)
Definition get_final_memory (m : VRNNMemory) : result (tensor float) :=
  Py.assert (has_memory_buffer m) "do a forward pass first" ;;;
  match rev (memory_buffer m) with
  | [] => Raise IndexError
  | mem :: _ => Ok (fst (_state_from_tuple mem))
  end.


End Memory.

(** ** The reparameterizer interface

    What [AbstractVAE] and [VRNN] use of [self.reparameterizer], whichever
    strategy it is: its mode, [train(mode)], the call on logits and the
    prior sampler.  The call gives the module and the generator as it
    leaves them, also when it raises. *)

Class Reparameterizer (P Rep : Type) : Type := {
  rep_training : Rep -> bool;
  rep_train : bool -> Rep -> Rep;
  rep_call : Rep -> tensor float -> rng -> result (tensor float * P) * Rep * rng;
  rep_prior : Rep -> nat -> option R -> rng -> tensor float * rng;
  rep_train_training : forall (b : bool) (r : Rep), rep_training (rep_train b r) = b;
  rep_call_training : forall (r : Rep) (lg : tensor float) (g : rng),
      rep_training (snd (fst (rep_call r lg g))) = rep_training r
}.

(** The call of an [IsotropicGaussian]; it does not change the module. *)
Definition gaussian_call (eps_fn : bool -> R) (m : Gaussian.IsotropicGaussian)
    (lg : tensor float) (g : rng)
  : result (tensor float * Gaussian.out_params) * Gaussian.IsotropicGaussian * rng :=
  match Gaussian.forward eps_fn m lg g with
  | Ok (zp, g') => (Ok zp, m, g')
  | Raise e => (Raise e, m, g)
  end.

Lemma gaussian_call_training (eps_fn : bool -> R) (m : Gaussian.IsotropicGaussian)
    (lg : tensor float) (g : rng) :
  Gaussian.training (snd (fst (gaussian_call eps_fn m lg g))) = Gaussian.training m.
Proof.
  unfold gaussian_call.
  destruct (Gaussian.forward eps_fn m lg g) as [ [zp g'] | e ]; reflexivity.
Defined.

(** [IsotropicGaussian] as a reparameterizer. *)
#[export] Instance gaussian_reparameterizer (eps_fn : bool -> R)
  : Reparameterizer Gaussian.out_params Gaussian.IsotropicGaussian := {
  rep_training := Gaussian.training;
  rep_train := Gaussian.train;
  rep_call := gaussian_call eps_fn;
  rep_prior := Gaussian.prior;
  rep_train_training := fun b r => eq_refl;
  rep_call_training := gaussian_call_training eps_fn
}.

(** [kwargs['key']] read as a flag: present and true. *)
Definition flag (o : option bool) : bool :=
  match o with
  | Some true => true
  | _ => false
  end.

(** ** abstract_vae.py *)

Module VAE.

Section WithCollaborators.

Context {P Rep : Type} {reparam : Reparameterizer P Rep}.

(** The attributes of an [AbstractVAE] object that the methods below read
    or write: the configuration keys, the reparameterizer, the decoder as
    the sequence of its layers, and the value held by the aggregate
    posterior ([aggregate_posterior.ema_val]). *)
Record AbstractVAE : Type := mkVAE {
  training : bool;
  decoder_layer_type : string;
  nll_type : string;
  chans : nat;
  kl_beta : R;
  continuous_mut_info : R;
  discrete_mut_info : R;
  generative_scale_var : R;
  reparameterizer : Rep;
  decoder : list (tensor float -> tensor float);
  ema_val : tensor float
}.

Definition set_reparameterizer (r : Rep) (v : AbstractVAE) : AbstractVAE :=
  {| training := training v; decoder_layer_type := decoder_layer_type v;
     nll_type := nll_type v; chans := chans v; kl_beta := kl_beta v;
     continuous_mut_info := continuous_mut_info v;
     discrete_mut_info := discrete_mut_info v;
     generative_scale_var := generative_scale_var v;
     reparameterizer := r; decoder := decoder v; ema_val := ema_val v |}.

Definition set_decoder (d : list (tensor float -> tensor float)) (v : AbstractVAE)
  : AbstractVAE :=
  {| training := training v; decoder_layer_type := decoder_layer_type v;
     nll_type := nll_type v; chans := chans v; kl_beta := kl_beta v;
     continuous_mut_info := continuous_mut_info v;
     discrete_mut_info := discrete_mut_info v;
     generative_scale_var := generative_scale_var v;
     reparameterizer := reparameterizer v; decoder := d; ema_val := ema_val v |}.

(** The object together with the generator. *)
Definition world : Type := (AbstractVAE * rng)%type.

(** The collaborators from [helpers], which are not among the sources:
    the likelihood family ([nll], [nll_activation]) and the autoregressive
    pixel sampler that [generate_pixel_cnn] drives. *)
Variable nll_fn : tensor float -> tensor float -> string -> tensor float.
Variable nll_activation_fn : tensor float -> string -> nat -> tensor float.
Variable generate_pixel_cnn : nat -> tensor float -> rng -> tensor float * rng.

(** The methods of the reparameterizer that the loss reads, and the
    clamping policy of the mutual information. *)
Variable kl : Rep -> P -> tensor float.
Variable mutual_info : Rep -> P -> tensor float.
Variable proxy_layer_loss : Rep -> option (tensor float).
Variable _clamp_mut_info : AbstractVAE -> tensor float -> result (tensor float).

(** [self.reparameterizer.train(mode)] *)
Definition reparameterizer_train (mode : bool) : St.M world unit :=
  St.modify (fun w => (set_reparameterizer (rep_train mode (reparameterizer (fst w))) (fst w),
                       snd w)).

(** [reparameterize(logits)]: [self.reparameterizer(logits)] *)
Definition reparameterize (lg : tensor float) : St.M world (tensor float * P) :=
  fun w =>
    let '(r, rep, g) := rep_call (reparameterizer (fst w)) lg (snd w) in
    (r, (set_reparameterizer rep (fst w), g)).

(** [self.reparameterizer.prior(batch_size, scale_var=...)] *)
Definition reparameterizer_prior (batch_size : nat) (scale_var : option R)
  : St.M world (tensor float) :=
  fun w =>
    let (z, g) := rep_prior (reparameterizer (fst w)) batch_size scale_var (snd w) in
    (Ok z, (fst w, g)).

(** [decode(z)]: the layers of the decoder in order. *)
Definition decode (v : AbstractVAE) (z : tensor float) : tensor float :=
  fold_left (fun x layer => layer x) (decoder v) z.

(** [nll_activation(logits)] *)
Definition nll_activation (v : AbstractVAE) (lg : tensor float) : tensor float :=
  nll_activation_fn lg (nll_type v) (chans v).

(** [generate_synthetic_samples(batch_size, use_aggregate_posterior=...)] *)
Definition generate_synthetic_samples (batch_size : nat)
    (use_aggregate_posterior : option bool) : St.M world (tensor float) :=
  z_samples <~
    (if flag use_aggregate_posterior then
       w <~ St.get ;;
       let training_tmp := rep_training (reparameterizer (fst w)) in
       reparameterizer_train false ;;~
       '(z_samples, _) <~ reparameterize (ema_val (fst w)) ;;
       reparameterizer_train training_tmp ;;~
       St.ret z_samples
     else
       w <~ St.get ;;
       reparameterizer_prior batch_size (Some (generative_scale_var (fst w)))) ;;
  w <~ St.get ;;
  if String.eqb (decoder_layer_type (fst w)) "pixelcnn" then
    let full_decoder := decoder (fst w) in
    let trunc_decoder := removelast (decoder (fst w)) in
    St.modify (fun w => (set_decoder trunc_decoder (fst w), snd w)) ;;~
    w1 <~ St.get ;;
    let decoded := decode (fst w1) z_samples in
    St.modify (fun w => (set_decoder full_decoder (fst w), snd w)) ;;~
    (fun w => let (out, g) := generate_pixel_cnn batch_size decoded (snd w) in
              (Ok out, (fst w, g)))
  else
    St.ret (nll_activation (fst w) (decode (fst w) z_samples)).

(** [kld(dist_a)] *)
Definition kld (v : AbstractVAE) (dist_a : P) : tensor float :=
  kl (reparameterizer v) dist_a.

(** [mut_info(dist_params, batch_size)] *)
Definition mut_info (v : AbstractVAE) (dist_params : P) (batch_size : nat)
  : result (tensor float) :=
  if Rgtb (continuous_mut_info v) 0 || Rgtb (discrete_mut_info v) 0
  then _clamp_mut_info v (mutual_info (reparameterizer v) dist_params)
  else Ok (zeros [batch_size]).

(** The dictionary returned by [loss_function]. *)
Record loss_map : Type := mkLoss {
  loss : tensor float;
  loss_mean : float;
  elbo_mean : float;
  nll_mean : float;
  kld_mean : float;
  proxy_mean : float;
  mut_info_mean : float
}.

(** [loss_function(recon_x, x, params)].  Tensors that are combined
    entrywise have one shape. *)
Definition loss_function (v : AbstractVAE) (recon_x x : tensor float) (params : P)
  : result loss_map :=
  let x := if String.eqb (decoder_layer_type v) "pixelcnn"
           then tmap (fun a => fmul (fsub a (Fin (1 / 2))) (Fin 2)) x
           else x in
  let nll := nll_fn x recon_x (nll_type v) in
  nan_check_and_break nll "nll" ;;;
  let kld := kld v params in
  nan_check_and_break kld "kld" ;;;
  let elbo := tzip fadd nll kld in
  let proxy_loss := match proxy_layer_loss (reparameterizer v) with
                    | Some l => l
                    | None => zeros (shape elbo)
                    end in
  mut_info <- mut_info v params (size0 x) ;;
  let loss := tzip fsub (tzip fadd nll (tmap (fun k => fmul (Fin (kl_beta v)) k) kld))
                   mut_info in
  Ok {| loss := loss;
        loss_mean := mean loss;
        elbo_mean := mean elbo;
        nll_mean := mean nll;
        kld_mean := mean kld;
        proxy_mean := mean proxy_loss;
        mut_info_mean := mean mut_info |}.

End WithCollaborators.

End VAE.

(** ** vrnn.py: the VRNN orchestrator *)

Module VRNN.

(** The argument of [forward]: a tensor, or a list of tensors. *)
Inductive input : Type :=
| Tensor (t : tensor float)
| TensorList (l : list (tensor float)).

Section WithStep.

Context {P Rep : Type} {reparam : Reparameterizer P Rep}.

(** [N] stands for the networks and the aggregate posteriors held by the
    object, [PM] for the parameter map that [step] returns. *)
Variables N PM : Type.

(** The attributes of a [VRNN] object that the methods below read or
    write. *)
Record VRNN : Type := mkVRNN {
  training : bool;
  max_time_steps : Z;
  generative_scale_var : R;
  memory : Memory.VRNNMemory;
  reparameterizer : Rep;
  nets : N
}.

Definition set_memory (m : Memory.VRNNMemory) (v : VRNN) : VRNN :=
  {| training := training v; max_time_steps := max_time_steps v;
     generative_scale_var := generative_scale_var v;
     memory := m; reparameterizer := reparameterizer v; nets := nets v |}.

Definition set_reparameterizer (r : Rep) (v : VRNN) : VRNN :=
  {| training := training v; max_time_steps := max_time_steps v;
     generative_scale_var := generative_scale_var v;
     memory := memory v; reparameterizer := r; nets := nets v |}.

(** The object together with the generator. *)
Definition world : Type := (VRNN * rng)%type.

(** The per-timestep cycle and the helpers that go through the networks:
    each is a method that may change the object, draw from the generator
    and raise.  [phi_z] is the feature network of the latent, and
    [ema_prior_logits] reads [aggregate_posterior['prior_logits'].ema_val]. *)
Variable step : tensor float -> St.M world (tensor float * PM).
Variable _compute_mi_params : tensor float -> PM -> St.M world PM.
Variable _decode_pixelcnn_or_normal : tensor float -> St.M world (tensor float).
Variable phi_z : N -> tensor float -> tensor float.
Variable ema_prior_logits : N -> tensor float.

(** [self.memory.init_state(batch_size, ...)] *)
Definition memory_init_state (batch_size : nat) : St.M world unit :=
  fun w =>
    let (m, g) := Memory.init_state (memory (fst w)) batch_size false (snd w) in
    (Ok tt, (set_memory m (fst w), g)).

(** [self.memory.clear()] *)
Definition memory_clear : St.M world unit :=
  St.modify (fun w => (set_memory (Memory.clear (memory (fst w))) (fst w), snd w)).

(** The variables of the loop of [forward]: [input_t], [decoded], [params]. *)
Definition loop_state : Type := (input * list (tensor float) * list PM)%type.

(** One iteration of the loop of [forward], at index [i]. *)
Definition forward_body (i : nat) (st : loop_state) : St.M world loop_state :=
  let '(input_t, decoded, params) := st in
  '(input_t, decode_i, params_i) <~
    match input_t with
    | TensorList l =>
        match nth_error l i with
        | Some x => '(decode_i, params_i) <~ step x ;;
                    St.ret (input_t, decode_i, params_i)
        | None => St.raise IndexError
        end
    | Tensor x =>
        '(decode_i, params_i) <~ step x ;;
        let x := if (i =? 0)%nat then decode_i else tzip fadd decode_i x in
        St.ret (Tensor x, decode_i, params_i)
    end ;;
  params_i <~ _compute_mi_params decode_i params_i ;;
  St.ret (input_t, decoded ++ [decode_i], params ++ [params_i]).

Fixpoint forward_loop (indices : list nat) (st : loop_state) : St.M world loop_state :=
  match indices with
  | [] => St.ret st
  | i :: rest => st' <~ forward_body i st ;; forward_loop rest st'
  end.

(** [forward(input_t)].  With a list, [input_t[0]] fails on an empty list
    and [input_t.is_cuda] on any other, before the first step. *)
Definition forward (input_t : input) : St.M world (list (tensor float) * list PM) :=
  batch_size <~
    match input_t with
    | Tensor x => St.ret (size0 x)
    | TensorList [] => St.raise IndexError
    | TensorList (x :: _) => St.ret (size0 x)
    end ;;
  match input_t with
  | TensorList _ => St.raise (AttributeError "is_cuda")
  | Tensor _ => St.ret tt
  end ;;~
  memory_init_state batch_size ;;~
  w <~ St.get ;;
  '(_, decoded, params) <~
    forward_loop (seq 0 (Z.to_nat (max_time_steps (fst w)))) (input_t, [], []) ;;
  memory_clear ;;~
  St.ret (decoded, params).

(** [self.reparameterizer.train(mode)] *)
Definition reparameterizer_train (mode : bool) : St.M world unit :=
  St.modify (fun w => (set_reparameterizer (rep_train mode (reparameterizer (fst w))) (fst w),
                       snd w)).

(** [self.reparameterizer(logits)] *)
Definition reparameterizer_call (lg : tensor float) : St.M world (tensor float * P) :=
  fun w =>
    let '(r, rep, g) := rep_call (reparameterizer (fst w)) lg (snd w) in
    (r, (set_reparameterizer rep (fst w), g)).

(** [self.reparameterizer.prior(batch_size, scale_var=...)] *)
Definition reparameterizer_prior (batch_size : nat) (scale_var : option R)
  : St.M world (tensor float) :=
  fun w =>
    let (z, g) := rep_prior (reparameterizer (fst w)) batch_size scale_var (snd w) in
    (Ok z, (fst w, g)).

(** The loop of [generate_synthetic_samples]: [n] further steps, each fed
    the running sum of the outputs. *)
Fixpoint generate_loop (n : nat) (dec_output_t : tensor float)
    (decoded_list : list (tensor float)) : St.M world (list (tensor float)) :=
  match n with
  | O => St.ret decoded_list
  | S n' =>
      '(dec_output_tp1, _) <~ step dec_output_t ;;
      let dec_output_t := tzip fadd dec_output_t dec_output_tp1 in
      generate_loop n' dec_output_t (decoded_list ++ [dec_output_t])
  end.

(** [generate_synthetic_samples(batch_size, reset_state=...,
    use_aggregate_posterior=...)] *)
Definition generate_synthetic_samples (batch_size : nat)
    (reset_state use_aggregate_posterior : option bool) : St.M world (tensor float) :=
  (if flag reset_state then memory_init_state batch_size else St.ret tt) ;;~
  w <~ St.get ;;
  st <~ St.lift (Memory.get_state (memory (fst w))) ;;
  let final_state := mean0 (fst st) in
  z_prior_t <~
    (if flag use_aggregate_posterior then
       let training_tmp := rep_training (reparameterizer (fst w)) in
       reparameterizer_train false ;;~
       '(z_prior_t, _) <~ reparameterizer_call (ema_prior_logits (nets (fst w))) ;;
       reparameterizer_train training_tmp ;;~
       St.ret z_prior_t
     else
       reparameterizer_prior batch_size (Some (generative_scale_var (fst w)))) ;;
  w <~ St.get ;;
  let phi_z_t := phi_z (nets (fst w)) z_prior_t in
  let dec_input_t := cat_last phi_z_t final_state in
  dec_output_t <~ _decode_pixelcnn_or_normal dec_input_t ;;
  w <~ St.get ;;
  decoded_list <~
    generate_loop (Z.to_nat (max_time_steps (fst w) - 1)) dec_output_t [dec_output_t] ;;
  St.lift (cat0 decoded_list).

End WithStep.

End VRNN.

(** ** reparameterizers/gumbel.py: the divergence from the prior *)

Module GumbelKL.

(** [torch.sum(t, -1)]: the sums of the vectors along the last axis, in a
    tensor of the remaining extents. *)
Definition sum_last (t : tensor R) : tensor R :=
  fill (removelast (shape t)) (map rsum (rows t)).

(** [_kld_categorical_uniform(log_q_z)], with [dim] the last axis.  The
    shape of a tensor of rank 0 has no last extent ([IndexError]), and a
    last extent of 0 makes [1.0 / shp[dim]] a division by zero. *)
Definition _kld_categorical_uniform (log_q_z : tensor R) : result (tensor R) :=
  match rev (shape log_q_z) with
  | [] => Raise IndexError
  | k :: _ =>
      if (k =? 0)%nat then Raise ZeroDivisionError
      else
        let p_z := 1 / INR k in
        let log_p_z := ln p_z in
        Ok (tmap (fun q => exp q * (q - log_p_z)) log_q_z)
  end.

Section WithLibrary.

(** [D.kl_divergence] between two one-hot categorical distributions, the
    first given by logits and the second by the positional argument, as the
    library computes it. *)
Variable kl_divergence : tensor R -> tensor R -> tensor R.

(** [kl(dist_a, prior=None)] *)
Definition kl (dist_a : Gumbel.out_params) (prior : option Gumbel.out_params)
  : result (tensor R) :=
  match prior with
  | None =>
      kld_element <- _kld_categorical_uniform
                       (Gumbel.log_q_z (Gumbel.discrete dist_a)) ;;
      Ok (sum_last kld_element)
  | Some prior =>
      Ok (kl_divergence (Gumbel.log_q_z (Gumbel.discrete dist_a))
                        (Gumbel.log_q_z (Gumbel.discrete prior)))
  end.

End WithLibrary.

End GumbelKL.

(** ** abstract_vae.py: the clamping of the mutual information *)

Module MutInfo.

(** [str.strip()] and [str.lower()] on strings of ASCII characters.  The
    characters that [strip] takes off both ends are those for which
    [str.isspace] holds: codes 9 to 13 and 28 to 32. *)
Definition is_space (c : Ascii.ascii) : bool :=
  let n := Ascii.nat_of_ascii c in
  ((9 <=? n) && (n <=? 13) || (28 <=? n) && (n <=? 32))%nat.

Fixpoint lstrip (s : string) : string :=
  match s with
  | EmptyString => EmptyString
  | String c s' => if is_space c then lstrip s' else s
  end.

Fixpoint rstrip (s : string) : string :=
  match s with
  | EmptyString => EmptyString
  | String c s' =>
      match rstrip s' with
      | EmptyString => if is_space c then EmptyString else String c EmptyString
      | r => String c r
      end
  end.

Definition strip (s : string) : string := rstrip (lstrip s).

Definition lower_char (c : Ascii.ascii) : Ascii.ascii :=
  let n := Ascii.nat_of_ascii c in
  if ((65 <=? n) && (n <=? 90))%nat then Ascii.ascii_of_nat (n + 32) else c.

Fixpoint lower (s : string) : string :=
  match s with
  | EmptyString => EmptyString
  | String c s' => String (lower_char c) (lower s')
  end.

(** Whether every character of the string is an ASCII character. *)
Fixpoint is_ascii (s : string) : bool :=
  match s with
  | EmptyString => true
  | String c s' => (Ascii.nat_of_ascii c <? 128)%nat && is_ascii s'
  end.

(** [torch.norm(t, p=2)]: the root of the sum of the squares of all
    entries. *)
Definition norm (t : tensor float) : float :=
  lift1 sqrt (fsum (map (fun a => fmul a a) (concat (rows t)))).

(** The quotient of an entry by the norm.  The norm is zero only when
    every entry is, so that the one division by zero is 0/0, a NaN. *)
Definition fdiv (a b : float) : float :=
  match a, b with
  | Fin x, Fin y => if Req_dec_T y 0 then NaN else Fin (x / y)
  | _, _ => NaN
  end.

(** [torch.clamp(a, min=lo, max=hi)] on one entry; a NaN stays. *)
Definition clamp (lo hi : R) (a : float) : float :=
  lift1 (fun x => Rmin (Rmax x lo) hi) a.

(** The configuration keys that [_clamp_mut_info] reads. *)
Record config : Type := mkConfig {
  mut_clamp_strategy : string;
  mut_clamp_value : R
}.

(** [_clamp_mut_info(mut_info)]: the strategy is looked up in the map of
    the three strategies under its stripped, lower-case name; a name that
    is not in the map is a [KeyError]. *)
Definition _clamp_mut_info (c : config) (mut_info : tensor float)
  : result (tensor float) :=
  let key := lower (strip (mut_clamp_strategy c)) in
  if String.eqb key "none" then
    Ok mut_info
  else if String.eqb key "norm" then
    Ok (tmap (fun a => fdiv a (norm mut_info)) mut_info)
  else if String.eqb key "clamp" then
    Ok (tmap (clamp (- mut_clamp_value c) (mut_clamp_value c)) mut_info)
  else
    Raise (KeyError key).

End MutInfo.

(** ** vrnn.py: the loss over the time steps *)

Module VRNNLoss.

(** The items that iterating over a tensor of rank at least 1 yields: its
    sub-tensors along the first axis (entries, as tensors of rank 0, for a
    tensor of rank 1). *)
Definition unbind0 {A} (t : tensor A) : list (tensor A) :=
  match tl (shape t) with
  | [] => map (fun a => mkTensor [] [[a]]) (concat (rows t))
  | rest => map (fun blk => mkTensor rest blk)
                (chunks (numel (removelast rest)) (size0 t) (rows t))
  end.

(** The aggregate dictionary: the entries of a loss dictionary and the
    key ['count']. *)
Record aggregate : Type := mkAggregate {
  totals : VAE.loss_map;
  count : nat
}.

(** The loss dictionary with a function applied to each value. *)
Definition map_values (f : float -> float) (a : VAE.loss_map) : VAE.loss_map :=
  {| VAE.loss := tmap f (VAE.loss a);
     VAE.loss_mean := f (VAE.loss_mean a);
     VAE.elbo_mean := f (VAE.elbo_mean a);
     VAE.nll_mean := f (VAE.nll_mean a);
     VAE.kld_mean := f (VAE.kld_mean a);
     VAE.proxy_mean := f (VAE.proxy_mean a);
     VAE.mut_info_mean := f (VAE.mut_info_mean a) |}.

(** [loss_aggregate_map[k] += v] for every key of the loss dictionary. *)
Definition add_values (a b : VAE.loss_map) : VAE.loss_map :=
  {| VAE.loss := tzip fadd (VAE.loss a) (VAE.loss b);
     VAE.loss_mean := fadd (VAE.loss_mean a) (VAE.loss_mean b);
     VAE.elbo_mean := fadd (VAE.elbo_mean a) (VAE.elbo_mean b);
     VAE.nll_mean := fadd (VAE.nll_mean a) (VAE.nll_mean b);
     VAE.kld_mean := fadd (VAE.kld_mean a) (VAE.kld_mean b);
     VAE.proxy_mean := fadd (VAE.proxy_mean a) (VAE.proxy_mean b);
     VAE.mut_info_mean := fadd (VAE.mut_info_mean a) (VAE.mut_info_mean b) |}.

(** [_add_loss_map(loss_t, loss_aggregate_map)] *)
Definition _add_loss_map (loss_t : VAE.loss_map) (loss_aggregate_map : option aggregate)
  : aggregate :=
  match loss_aggregate_map with
  | None => {| totals := loss_t; count := 1 |}
  | Some a => {| totals := add_values (totals a) loss_t; count := count a + 1 |}
  end.

(** [v /= count] on one entry; the count is a positive integer. *)
Definition div_count (c : nat) (a : float) : float :=
  lift1 (fun x => x / INR c) a.

(** [_mean_map(loss_aggregate_map)]; [keys] of [None] is an
    [AttributeError]. *)
Definition _mean_map (loss_aggregate_map : option aggregate) : result aggregate :=
  match loss_aggregate_map with
  | None => Raise (AttributeError "keys")
  | Some a => Ok {| totals := map_values (div_count (count a)) (totals a);
                    count := count a |}
  end.

Section WithBase.

(** [PM] is the parameter map of one time step, and [super_loss_function]
    is [AbstractVAE.loss_function] as it runs on a [VRNN] object. *)
Variable PM : Type.
Variable super_loss_function
  : tensor float -> tensor float -> PM -> result VAE.loss_map.

(** The loop over [zip(recon_x_container, x_container, params_map)], which
    ends with the shortest of the three. *)
Fixpoint aggregate_loop (recon_x_container x_container : list (tensor float))
    (params_map : list PM) (loss_aggregate_map : option aggregate)
  : result (option aggregate) :=
  match recon_x_container, x_container, params_map with
  | recon_x :: rs, x :: xs, params :: ps =>
      loss_t <- super_loss_function recon_x x params ;;
      aggregate_loop rs xs ps (Some (_add_loss_map loss_t loss_aggregate_map))
  | _, _, _ => Ok loss_aggregate_map
  end.

(** [loss_function(recon_x_container, x_container, params_map)], for a
    target that is a list of tensors or one tensor of rank at least 1. *)
Definition loss_function (recon_x_container : list (tensor float))
    (x_container : VRNN.input) (params_map : list PM) : result aggregate :=
  Py.assert (length recon_x_container =? length params_map)%nat EmptyString ;;;
  '(recon_x_container, x_container) <-
    match x_container with
    | VRNN.TensorList l => Ok (recon_x_container, l)
    | VRNN.Tensor x =>
        let n := length recon_x_container in
        if negb (size0 x =? n)%nat then
          if (n =? 0)%nat then Raise ZeroDivisionError
          else
            let scale := 1 / INR n in
            match rev recon_x_container with
            | [] => Raise IndexError
            | last_recon :: _ =>
                Ok (repeat (tmap (fmul (Fin scale)) last_recon) n,
                    repeat (tmap (fmul (Fin scale)) x) n)
            end
        else Ok (recon_x_container, unbind0 x)
    end ;;
  loss_aggregate_map <- aggregate_loop recon_x_container x_container params_map None ;;
  _mean_map loss_aggregate_map.

End WithBase.

End VRNNLoss.

(** ** vrnn.py: the time step *)

Module VRNNStep.

(** A network, as the function that it computes. *)
Definition net : Type := tensor float -> tensor float.

(** The networks, the aggregate posteriors and the configuration keys of
    a [VRNN] object that the time step reads or writes.  [E] is the state
    of an exponential moving average.  [encoder] is absent until
    [_lazy_build_encoder] has built it, and [decoder] is the sequence of
    the layers of the decoder. *)
Record components (E : Type) : Type := mkComponents {
  add_img_noise : bool;
  decoder_layer_type : string;
  reparam_type : string;
  nll_type : string;
  chans : nat;
  continuous_mut_info : R;
  discrete_mut_info : R;
  phi_x : net;
  phi_x_i : list net;
  phi_z : net;
  encoder : option net;
  prior : net;
  decoder : list net;
  ema_encoder_logits : E;
  ema_prior_logits : E
}.

Definition set_phi_x_i {E} (l : list net) (c : components E) : components E :=
  {| add_img_noise := add_img_noise c; decoder_layer_type := decoder_layer_type c;
     reparam_type := reparam_type c; nll_type := nll_type c; chans := chans c;
     continuous_mut_info := continuous_mut_info c;
     discrete_mut_info := discrete_mut_info c;
     phi_x := phi_x c; phi_x_i := l; phi_z := phi_z c; encoder := encoder c;
     prior := prior c; decoder := decoder c;
     ema_encoder_logits := ema_encoder_logits c;
     ema_prior_logits := ema_prior_logits c |}.

Definition set_encoder {E} (e : net) (c : components E) : components E :=
  {| add_img_noise := add_img_noise c; decoder_layer_type := decoder_layer_type c;
     reparam_type := reparam_type c; nll_type := nll_type c; chans := chans c;
     continuous_mut_info := continuous_mut_info c;
     discrete_mut_info := discrete_mut_info c;
     phi_x := phi_x c; phi_x_i := phi_x_i c; phi_z := phi_z c; encoder := Some e;
     prior := prior c; decoder := decoder c;
     ema_encoder_logits := ema_encoder_logits c;
     ema_prior_logits := ema_prior_logits c |}.

Definition set_aggregate_posterior {E} (enc pri : E) (c : components E)
  : components E :=
  {| add_img_noise := add_img_noise c; decoder_layer_type := decoder_layer_type c;
     reparam_type := reparam_type c; nll_type := nll_type c; chans := chans c;
     continuous_mut_info := continuous_mut_info c;
     discrete_mut_info := discrete_mut_info c;
     phi_x := phi_x c; phi_x_i := phi_x_i c; phi_z := phi_z c; encoder := encoder c;
     prior := prior c; decoder := decoder c;
     ema_encoder_logits := enc; ema_prior_logits := pri |}.

(** [torch.sigmoid] on one entry. *)
Definition sigmoid (a : float) : float :=
  lift1 (fun x => 1 / (1 + exp (- x))) a.

(** [t[:, lo:hi]], and [t[:, lo:]] when [hi] is absent: the slice along the
    second axis, which a tensor of rank below 2 does not have
    ([IndexError]).  For rank 2 the second axis is the last one; for a
    higher rank each index of the first axis holds [d1] blocks of vectors,
    of which the slice keeps those from [lo] to [hi]. *)
Definition slice1 (lo : nat) (hi : option nat) (t : tensor float)
  : result (tensor float) :=
  match shape t with
  | [] => Raise IndexError
  | [_] => Raise IndexError
  | [d0; d1] =>
      let hi := match hi with Some h => h | None => d1 end in
      Ok (mkTensor [d0; (Nat.min hi d1 - Nat.min lo d1)%nat]
                   (map (fun r => firstn (hi - lo) (skipn lo r)) (rows t)))
  | d0 :: d1 :: rest =>
      let hi := match hi with Some h => h | None => d1 end in
      let b := numel (removelast rest) in
      Ok (mkTensor (d0 :: (Nat.min hi d1 - Nat.min lo d1)%nat :: rest)
                   (concat (map (fun blk => firstn ((hi - lo) * b) (skipn (lo * b) blk))
                                (chunks (d1 * b) d0 (rows t)))))
  end.

(** [torch.cat(ts, -1)] of slices of one tensor, which have its rank: the
    extents other than the last have to agree. *)
Fixpoint cat_slices (ts : list (tensor float)) : result (tensor float) :=
  match ts with
  | [] => Raise (RuntimeError "expected a non-empty list of Tensors")
  | [t] => Ok t
  | t :: rest =>
      u <- cat_slices rest ;;
      if list_eq_dec Nat.eq_dec (removelast (shape t)) (removelast (shape u))
      then Ok (cat_last t u)
      else Raise (RuntimeError "Sizes of tensors must match except in dimension -1")
  end.

(** [t.unsqueeze(0)] *)
Definition unsqueeze0 {A} (t : tensor A) : tensor A :=
  mkTensor (1%nat :: shape t) (rows t).

(** The dictionary returned by [encode]. *)
Record logits_map : Type := mkLogits {
  encoder_logits : tensor float;
  prior_logits : tensor float;
  x_features : tensor float
}.

(** The dictionary [z] built by [reparameterize]. *)
Record latents : Type := mkLatents {
  z_prior : tensor float;
  z_posterior : tensor float;
  z_x_features : tensor float
}.

Section WithHelpers.

Context {P Rep : Type} {reparam : Reparameterizer P Rep}.
Variable E : Type.

(** The dictionary [params] built by [reparameterize]. *)
Record param_map : Type := mkParamMap {
  params_prior : P;
  params_posterior : P
}.

(** What the step takes from outside the sources: the update of an
    exponential moving average and the value that it holds, the image
    noise, the builders of the lazy
    networks, the activation of the likelihood and the autoregressive pixel
    sampler, the attribute [num_continuous_input] of a mixture
    reparameterizer, and the entry [q_z_given_xhat] of a parameter
    dictionary. *)
Variable ema_call : E -> tensor float -> E.
Variable ema_val : E -> tensor float.
Variable add_noise_to_imgs : tensor float -> rng -> tensor float * rng.
Variable _lazy_build_phi_x : list nat -> net.
Variable vrnn_enc : nat -> Rep -> net.
Variable nll_activation_fn : tensor float -> string -> nat -> tensor float.
Variable generate_pixel_cnn : nat -> tensor float -> rng -> tensor float * rng.
Variable num_continuous_input : Rep -> option nat.
Variable set_q_z_given_xhat : P -> P -> P.

Definition world : Type := VRNN.world (Rep := Rep) (components E).

Definition set_nets (c : components E) (v : VRNN.VRNN (Rep := Rep) (components E))
  : VRNN.VRNN (Rep := Rep) (components E) :=
  {| VRNN.training := VRNN.training v;
     VRNN.max_time_steps := VRNN.max_time_steps v;
     VRNN.generative_scale_var := VRNN.generative_scale_var v;
     VRNN.memory := VRNN.memory v;
     VRNN.reparameterizer := VRNN.reparameterizer v;
     VRNN.nets := c |}.

(** A change of the networks of the object. *)
Definition modify_nets (f : components E -> components E) : St.M world unit :=
  St.modify (fun w => (set_nets (f (VRNN.nets (fst w))) (fst w), snd w)).

(** [_clamp_variance(logits)] *)
Definition _clamp_variance (v : VRNN.VRNN (Rep := Rep) (components E))
    (logits : tensor float) : result (tensor float) :=
  if String.eqb (reparam_type (VRNN.nets v)) "isotropic_gaussian" then
    let feat_size := size_last logits in
    mean_part <- slice1 0 (Some (feat_size / 2)%nat) logits ;;
    var_part <- slice1 (feat_size / 2) None logits ;;
    cat_slices [mean_part; tmap sigmoid var_part]
  else if String.eqb (reparam_type (VRNN.nets v)) "mixture" then
    feat_size <- match num_continuous_input (VRNN.reparameterizer v) with
                 | Some n => Ok n
                 | None => Raise (AttributeError "num_continuous_input")
                 end ;;
    mean_part <- slice1 0 (Some (feat_size / 2)%nat) logits ;;
    var_part <- slice1 (feat_size / 2) (Some feat_size) logits ;;
    discrete_part <- slice1 feat_size None logits ;;
    cat_slices [mean_part; tmap sigmoid var_part; discrete_part]
  else
    Ok logits.

(** [reparameterize(logits_map)] *)
Definition reparameterize (lm : logits_map) : St.M world (latents * param_map) :=
  '(z_enc_t, params_enc_t) <~ VRNN.reparameterizer_call (encoder_logits lm) ;;
  w <~ St.get ;;
  clamped <~ St.lift (_clamp_variance (fst w) (prior_logits lm)) ;;
  '(z_prior_t, params_prior_t) <~ VRNN.reparameterizer_call clamped ;;
  St.ret ({| z_prior := z_prior_t; z_posterior := z_enc_t;
             z_x_features := x_features lm |},
          {| params_prior := params_prior_t; params_posterior := params_enc_t |}).

(** The loop of [_extract_features] over the extra inputs, from index [i]. *)
Fixpoint extract_loop (i : nat) (xargs : list (tensor float)) (phi_x_t : tensor float)
  : St.M world (tensor float) :=
  match xargs with
  | [] => St.ret phi_x_t
  | x_item :: rest =>
      w <~ St.get ;;
      (if (length (phi_x_i (VRNN.nets (fst w))) <? i + 1)%nat then
         modify_nets (fun c => set_phi_x_i
                                 (phi_x_i c ++ [_lazy_build_phi_x (tl (shape x_item))]) c)
       else St.ret tt) ;;~
      w <~ St.get ;;
      match nth_error (phi_x_i (VRNN.nets (fst w))) i with
      | None => St.raise IndexError
      | Some f => extract_loop (S i) rest (cat_last phi_x_t (f x_item))
      end
  end.

(** [_extract_features(x, *xargs)] *)
Definition _extract_features (x : tensor float) (xargs : list (tensor float))
  : St.M world (tensor float) :=
  w <~ St.get ;;
  extract_loop 0 xargs (phi_x (VRNN.nets (fst w)) x).

(** [_lazy_build_encoder(input_size)] *)
Definition _lazy_build_encoder (input_size : nat) : St.M world net :=
  w <~ St.get ;;
  match encoder (VRNN.nets (fst w)) with
  | Some e => St.ret e
  | None =>
      let e := vrnn_enc input_size (VRNN.reparameterizer (fst w)) in
      modify_nets (set_encoder e) ;;~
      St.ret e
  end.

(** [encode(x, *xargs)] *)
Definition encode (x : tensor float) (xargs : list (tensor float))
  : St.M world logits_map :=
  w <~ St.get ;;
  let x := if String.eqb (decoder_layer_type (VRNN.nets (fst w))) "pixelcnn"
           then tmap (fun a => fmul (fsub a (Fin (1 / 2))) (Fin 2)) x
           else x in
  st <~ St.lift (Memory.get_state (VRNN.memory (fst w))) ;;
  let final_state := mean0 (fst st) in
  St.lift (nan_check_and_break final_state "final_rnn_output") ;;~
  phi_x_t <~ _extract_features x xargs ;;
  let enc_input_t := cat_last phi_x_t final_state in
  enc <~ _lazy_build_encoder (size_last enc_input_t) ;;
  let enc_t := enc enc_input_t in
  St.lift (nan_check_and_break enc_t "enc_t") ;;~
  w <~ St.get ;;
  let prior_t := prior (VRNN.nets (fst w)) final_state in
  St.lift (nan_check_and_break prior_t "priot_t") ;;~
  St.ret {| encoder_logits := enc_t; prior_logits := prior_t;
            x_features := phi_x_t |}.

(** [posterior], called with the input [x] and the extra inputs. *)
Definition posterior (x : tensor float) (xargs : list (tensor float))
  : St.M world (latents * param_map) :=
  lm <~ encode x xargs ;;
  w <~ St.get ;;
  (if VRNN.training (fst w) then
     modify_nets (fun c => set_aggregate_posterior
                             (ema_call (ema_encoder_logits c) (encoder_logits lm))
                             (ema_call (ema_prior_logits c) (prior_logits lm)) c)
   else St.ret tt) ;;~
  reparameterize lm.

(** [self.memory(input_t, reset_state=reset_state)] *)
Definition memory_call (input_t : tensor float) (reset_state : bool)
  : St.M world (tensor float) :=
  fun w =>
    match Memory.forward (VRNN.memory (fst w)) input_t reset_state (snd w) with
    | Ok (out, m, g) => (Ok out, (VRNN.set_memory m (fst w), g))
    | Raise e => (Raise e, w)
    end.

(** [decode(z_t, produce_output, reset_state)]: the decoded logits when
    [produce_output] is set, and [None] otherwise. *)
Definition decode (z_t : latents) (produce_output reset_state : bool)
  : St.M world (if produce_output then tensor float else unit) :=
  w <~ St.get ;;
  st <~ St.lift (Memory.get_state (VRNN.memory (fst w))) ;;
  let final_state := mean0 (fst st) in
  let phi_z_t := phi_z (VRNN.nets (fst w)) (z_posterior z_t) in
  let input_t := unsqueeze0 (cat_last (z_x_features z_t) phi_z_t) in
  memory_call input_t reset_state ;;~
  w <~ St.get ;;
  (if produce_output as b return St.M world (if b then tensor float else unit) then
     let dec_input_t := cat_last phi_z_t final_state in
     St.ret (fold_left (fun x layer => layer x) (decoder (VRNN.nets (fst w)))
                       dec_input_t)
   else St.ret tt).

(** [step(x_i)] *)
Definition step (x_i : tensor float) : St.M world (tensor float * param_map) :=
  w <~ St.get ;;
  x_i_inference <~
    (if add_img_noise (VRNN.nets (fst w)) then
       fun w => let (x, g) := add_noise_to_imgs x_i (snd w) in (Ok x, (fst w, g))
     else St.ret x_i) ;;
  '(z_t, params_t) <~ posterior x_i_inference [] ;;
  St.lift (nan_check_and_break x_i_inference "x_related_inference") ;;~
  St.lift (nan_check_and_break (z_prior z_t) "prior") ;;~
  St.lift (nan_check_and_break (z_posterior z_t) "posterior") ;;~
  St.lift (nan_check_and_break (z_x_features z_t) "x_features") ;;~
  decoded_t <~ decode z_t true false ;;
  St.lift (nan_check_and_break decoded_t "decoded_t") ;;~
  St.ret (decoded_t, params_t).

(** [nll_activation(logits)] *)
Definition nll_activation (lg : tensor float) : St.M world (tensor float) :=
  w <~ St.get ;;
  St.ret (nll_activation_fn lg (nll_type (VRNN.nets (fst w))) (chans (VRNN.nets (fst w)))).

(** [_decode_pixelcnn_or_normal(dec_input_t)] *)
Definition _decode_pixelcnn_or_normal (dec_input_t : tensor float)
  : St.M world (tensor float) :=
  w <~ St.get ;;
  if String.eqb (decoder_layer_type (VRNN.nets (fst w))) "pixelcnn" then
    let trunc_decoder := removelast (decoder (VRNN.nets (fst w))) in
    let decoded := fold_left (fun x layer => layer x) trunc_decoder dec_input_t in
    fun w => let (out, g) := generate_pixel_cnn (size0 dec_input_t) decoded (snd w) in
             (Ok out, (fst w, g))
  else
    let dec_logits_t := fold_left (fun x layer => layer x)
                                  (decoder (VRNN.nets (fst w))) dec_input_t in
    nll_activation dec_logits_t.

(** [_compute_mi_params(recon_x_logits, params)] *)
Definition _compute_mi_params (recon_x_logits : tensor float) (params : param_map)
  : St.M world param_map :=
  w <~ St.get ;;
  if Rgtb (continuous_mut_info (VRNN.nets (fst w))) 0
     || Rgtb (discrete_mut_info (VRNN.nets (fst w))) 0
  then
    activated <~ nll_activation recon_x_logits ;;
    '(_, q_z_given_xhat_params) <~ posterior activated [] ;;
    St.ret {| params_prior := params_prior params;
              params_posterior :=
                set_q_z_given_xhat (params_posterior params)
                                   (params_posterior q_z_given_xhat_params) |}
  else St.ret params.

(** [forward(input_t)] and [generate_synthetic_samples(batch_size, ...)]
    of the object, with its own step. *)
Definition forward (input_t : VRNN.input)
  : St.M world (list (tensor float) * list param_map) :=
  VRNN.forward step _compute_mi_params input_t.

Definition generate_synthetic_samples (batch_size : nat)
    (reset_state use_aggregate_posterior : option bool)
  : St.M world (tensor float) :=
  VRNN.generate_synthetic_samples
    step _decode_pixelcnn_or_normal
    (fun c => phi_z c) (fun c => ema_val (ema_prior_logits c))
    batch_size reset_state use_aggregate_posterior.

End WithHelpers.

End VRNNStep.

(** * Properties *)

(** ** Temperature annealing of the Gumbel-softmax reparameterizer *)

Section GumbelAnneal.
Import Gumbel.

















End GumbelAnneal.

(** ** The hard sample of the Gumbel-softmax sampler *)

Section GumbelHard.
Import Gumbel.





Lemma zip_with_length {A B C} (f : A -> B -> C) (l : list A) (m : list B) :
  length l = length m -> length (zip_with f l m) = length l.
Proof.
  revert m. induction l as [ | a l IH ]; intros [ | b m ] H; simpl in *;
    try discriminate; auto.
Qed.
























End GumbelHard.

(** ** Evaluation mode of the Gumbel-softmax reparameterizer *)

Section GumbelEval.
Import Gumbel.










End GumbelEval.

(** ** The isotropic Gaussian reparameterizer *)

Section GaussianSample.
Import Gaussian.

Variable eps_fn : bool -> R.

(** The two halves of the logits, as [reparmeterize] cuts them. *)
Definition mu_half (lg : tensor float) : tensor float :=
  slice_to (size_last lg / 2) lg.

Definition logvar_half (m : IsotropicGaussian) (lg : tensor float) : tensor float :=
  tmap (fun v => fadd v (Fin (eps_fn (half m)))) (slice_from (size_last lg / 2) lg).

(** The logits that [reparmeterize] accepts: an even last extent that is
    twice the output size, and rank 2 with no NaN in the first half, or
    rank 3. *)
Definition accepted (m : IsotropicGaussian) (lg : tensor float) : bool :=
  ((size_last lg mod 2 =? 0) && (size_last lg / 2 =? output_size m))%nat
  && (((dim lg =? 2)%nat && negb (has_nan (mu_half lg))) || (dim lg =? 3)%nat).

Lemma reparmeterize_accepted (m : IsotropicGaussian) (lg : tensor float) (g : rng) :
  accepted m lg = true ->
  reparmeterize eps_fn m lg g
  = _reparametrize_gaussian m (mu_half lg) (logvar_half m lg) g.
Proof.
  unfold accepted, reparmeterize, mu_half, logvar_half. intro H.
  apply andb_prop in H. destruct H as [Ha Hd]. rewrite Ha. cbn [Py.assert Py.bind].
  destruct (dim lg =? 2)%nat eqn:E2.
  - cbn [andb orb] in Hd. apply orb_prop in Hd. destruct Hd as [Hn | H3].
    + apply negb_true_iff in Hn. unfold nan_check_and_break.
      rewrite Hn. reflexivity.
    + apply Nat.eqb_eq in E2, H3. congruence.
  - cbn [andb orb] in Hd. rewrite Hd. reflexivity.
Qed.


Lemma forward_eval_accepted (m : IsotropicGaussian) (lg : tensor float) (g : rng) :
  accepted m lg = true ->
  forward eps_fn (train false m) lg g
  = Ok ((mu_half lg,
         {| z := mu_half lg; logits := lg;
            gaussian := {| mu := mu_half lg; logvar := logvar_half m lg;
                           mu_mean := Some (mean (mu_half lg));
                           logvar_mean := Some (mean (logvar_half m lg)) |} |}), g).
Proof.
  intro H. unfold forward.
  rewrite (reparmeterize_accepted (train false m) lg g H). reflexivity.
Qed.

(** In evaluation mode nothing that [forward] does reads the generator. *)
Lemma forward_eval_ignores_rng (m : IsotropicGaussian) (lg : tensor float) (g1 g2 : rng) :
  Py.rmap fst (forward eps_fn (train false m) lg g1)
  = Py.rmap fst (forward eps_fn (train false m) lg g2).
Proof.
  unfold forward, reparmeterize.
  destruct (Py.assert _ _) as [ [] | e ]; cbn [Py.bind]; [ | reflexivity ].
  destruct (dim lg =? 2)%nat.
  - destruct (nan_check_and_break _ _) as [ [] | e ]; reflexivity.
  - destruct (dim lg =? 3)%nat; reflexivity.
Qed.

(** C7.  In evaluation mode, on logits that the reparameterizer accepts,
    [forward] returns the first half of the logits as the sample (and as
    [mu]) and leaves the generator as it was, so two calls with the same
    logits return the same sample; and on any logits the outcome is the same
    whatever the state of the generator. *)
Theorem gaussian_eval_deterministic
    (m : IsotropicGaussian) (lg : tensor float) (g1 g2 : rng) :
  (accepted m lg = true ->
   exists p,
     forward eps_fn (train false m) lg g1 = Ok ((mu_half lg, p), g1) /\
     forward eps_fn (train false m) lg g2 = Ok ((mu_half lg, p), g2) /\
     z p = mu_half lg /\ mu (gaussian p) = mu_half lg /\
     rows (mu_half lg) = map (firstn (size_last lg / 2)) (rows lg)) /\
  Py.rmap fst (forward eps_fn (train false m) lg g1)
  = Py.rmap fst (forward eps_fn (train false m) lg g2).
Proof.
  split; [ | apply forward_eval_ignores_rng ].
  intro H. eexists. rewrite !forward_eval_accepted by exact H.
  repeat split; reflexivity.
Qed.



End GaussianSample.

Section GaussianExamples.
Import Gaussian.

(** A module with one latent dimension, the small constant taken as
    [1e-6], logits that are zero in both halves, and a generator whose
    draws are all 1. *)
Definition unit_gaussian : IsotropicGaussian :=
  {| training := true; continuous_size := 2; half := false; cuda := false |}.

Definition micro_eps : bool -> R := fun _ => 1 / 1000000.

Definition zero_logits : tensor float := mkTensor [1; 2]%nat [[Fin 0; Fin 0]].

Definition unit_noise : rng := fun _ => 1.

Lemma zero_logits_accepted : accepted unit_gaussian zero_logits = true.
Proof. reflexivity. Qed.


(** Two evaluation-mode calls of the unit module on [zero_logits], from
    two states of the generator. *)
Lemma gaussian_eval_deterministic_witness :
  exists p,
    forward micro_eps (train false unit_gaussian) zero_logits unit_noise
    = Ok ((mu_half zero_logits, p), unit_noise) /\
    forward micro_eps (train false unit_gaussian) zero_logits (fun _ => 0)
    = Ok ((mu_half zero_logits, p), fun _ => 0) /\
    z p = mu_half zero_logits /\ mu (gaussian p) = mu_half zero_logits /\
    rows (mu_half zero_logits) = map (firstn (size_last zero_logits / 2)) (rows zero_logits).
Proof.
  exact (proj1 (gaussian_eval_deterministic micro_eps unit_gaussian zero_logits
                  unit_noise (fun _ => 0)) eq_refl).
Defined.


End GaussianExamples.

(** ** Bookkeeping of the recurrent memory *)

Section MemoryBuffer.
Import Memory.


Lemma init_state_sets (m : VRNNMemory) (b : nat) (o : bool) (g : rng) :
  state (fst (init_state m b o g)) <> None /\
  memory_buffer (fst (init_state m b o g)) = memory_buffer m.
Proof.
  unfold init_state.
  destruct (_init m b o g) as [h g1]. destruct (_init m b o g1) as [c g2].
  simpl. split; [ discriminate | reflexivity ].
Qed.





(** C4, on the code.  On a fresh memory the assertion of
    [get_final_memory] and [get_merged_memory] holds, because [__init__]
    has set [memory_buffer]: the first fails with [IndexError] and the
    second with the runtime's error for an empty list of tensors, while
    [get_state] and [get_output] do fail with the assertion "do a forward
    pass first". *)
Theorem memory_queries_before_forward
    (h_dim n_layers : nat) (bidirectional noisy : bool)
    (rnn : tensor float -> state_t -> tensor float * state_t) :
  let m0 := init h_dim n_layers bidirectional noisy rnn in
  get_final_memory m0 = Raise IndexError /\
  get_merged_memory m0 = Raise (RuntimeError "expected a non-empty list of Tensors") /\
  get_state m0 = Raise (AssertionError "do a forward pass first") /\
  get_output m0 = Raise (AssertionError "do a forward pass first").
Proof. repeat split. Qed.

End MemoryBuffer.

(** ** The rollout of [VRNN.forward] on a single tensor *)

Section Rollout.
Import VRNN.

Context {Rep : Type}.
Variables N PM : Type.
Variable step : tensor float -> St.M (world (Rep := Rep) N) (tensor float * PM).
Variable _compute_mi_params : tensor float -> PM -> St.M (world (Rep := Rep) N) PM.

(** [feeds k x ds x']: starting at index [k] with input [x], the steps
    return the outputs [ds] in turn, each step being fed the input that the
    loop holds at that index, and [x'] is the input held after the last of
    them.  The input after index 0 is the output of step 0; after an index
    [k > 0] it is the output of step [k] plus the input of step [k]. *)
Inductive feeds : nat -> tensor float -> list (tensor float) -> tensor float -> Prop :=
| feeds_done (k : nat) (x : tensor float) : feeds k x [] x
| feeds_step (k : nat) (x d x' : tensor float) (ds : list (tensor float))
    (p : PM) (w w1 : world N) :
    step x w = (Ok (d, p), w1) ->
    feeds (S k) (if (k =? 0)%nat then d else tzip fadd d x) ds x' ->
    feeds k x (d :: ds) x'.

Lemma forward_body_tensor (i : nat) (x : tensor float) (ds : list (tensor float))
    (ps : list PM) (w w' : world N) (st : loop_state PM) :
  forward_body step _compute_mi_params i (Tensor x, ds, ps) w = (Ok st, w') ->
  exists d p w1 p',
    step x w = (Ok (d, p), w1) /\
    _compute_mi_params d p w1 = (Ok p', w') /\
    st = (Tensor (if (i =? 0)%nat then d else tzip fadd d x), ds ++ [d], ps ++ [p']).
Proof.
  unfold forward_body, St.bind, St.ret.
  destruct (step x w) as [ [ [d p] | e ] w1 ] eqn:Es; [ | discriminate ].
  destruct (_compute_mi_params d p w1) as [ [ p' | e ] w2 ] eqn:Em; [ | discriminate ].
  intro H. injection H as <- <-. exists d, p, w1, p'. auto.
Qed.

Lemma forward_loop_feeds (n : nat) :
  forall (k : nat) (x : tensor float) (ds : list (tensor float)) (ps : list PM)
         (w w' : world N) (st : loop_state PM),
    forward_loop step _compute_mi_params (seq k n) (Tensor x, ds, ps) w = (Ok st, w') ->
    exists x' new ps',
      st = (Tensor x', ds ++ new, ps') /\ length new = n /\ feeds k x new x'.
Proof.
  induction n as [ | n IH ]; intros k x ds ps w w' st H.
  - simpl in H. unfold St.ret in H. injection H as <- <-. exists x, [], ps.
    rewrite app_nil_r. repeat split. constructor.
  - cbn [seq forward_loop] in H. unfold St.bind at 1 in H.
    destruct (forward_body step _compute_mi_params k (Tensor x, ds, ps) w)
      as [ [ st1 | e ] w1 ] eqn:Eb; [ | discriminate ].
    apply forward_body_tensor in Eb.
    destruct Eb as (d & p & w0 & p' & Es & _ & ->).
    apply IH in H. destruct H as (x' & new & ps' & -> & Hl & Hf).
    exists x', (d :: new), ps'. rewrite <- app_assoc. simpl.
    repeat split; [ congruence | ].
    econstructor; eassumption.
Qed.

(** C1, as the code has it.  When [forward] on a single tensor returns, it
    has run [max_time_steps] steps, and the inputs of the steps are linked
    as [feeds] says: step 0 is fed the given tensor, step 1 is fed the
    decoded output of step 0 alone, and every later step [i + 1] is fed the
    decoded output of step [i] plus the input of step [i]. *)
Theorem vrnn_forward_feedback (x : tensor float) (w w' : world N)
    (decoded : list (tensor float)) (params : list PM) :
  forward step _compute_mi_params (Tensor x) w = (Ok (decoded, params), w') ->
  length decoded = Z.to_nat (max_time_steps (fst w)) /\
  exists x', feeds 0 x decoded x'.
Proof.
  unfold forward, St.bind, St.ret, St.get, memory_init_state, memory_clear, St.modify.
  destruct (Memory.init_state (memory (fst w)) (size0 x) false (snd w)) as [m g].
  cbn [fst snd max_time_steps set_memory].
  destruct (forward_loop step _compute_mi_params
              (seq 0 (Z.to_nat (max_time_steps (fst w)))) (Tensor x, [], [])
              (set_memory m (fst w), g)) as [ [ st | e ] w1 ] eqn:El; [ | discriminate ].
  apply forward_loop_feeds in El.
  destruct El as (x' & new & ps' & -> & Hl & Hf).
  simpl. intro H. injection H as <- _ _.
  split; [ exact Hl | exists x'; exact Hf ].
Qed.


End Rollout.

Section RolloutExamples.
Import VRNN.

(** A model with one latent dimension whose step returns twice its input,
    unrolled for two steps on the input [[1]]. *)
Definition doubling_world : world (Rep := Gaussian.IsotropicGaussian) unit :=
  ({| training := true;
      max_time_steps := 2;
      generative_scale_var := 1;
      memory := Memory.init 1 1 false false (fun x s => (x, s));
      reparameterizer := unit_gaussian;
      nets := tt |},
   unit_noise).

Definition doubling_step (x : tensor float)
  : St.M (world (Rep := Gaussian.IsotropicGaussian) unit) (tensor float * unit) :=
  St.ret (tmap (fmul (Fin 2)) x, tt).

Definition keep_params (d : tensor float) (p : unit)
  : St.M (world (Rep := Gaussian.IsotropicGaussian) unit) unit :=
  St.ret p.

Definition scalar_tensor (r : R) : tensor float := mkTensor [1; 1]%nat [[Fin r]].

(** C1, counterexample.  The input is [[1]] and step 0 decodes [[2]].  The
    rule [input + decoded] makes the input of step 1 the sum [[1 + 2]]; the
    loop makes it the decoded output [[2]] alone, so that step 1 decodes
    [[4]]. *)
Lemma vrnn_first_feedback_drops_input :
  (exists w',
      forward_body doubling_step keep_params 0 (Tensor (scalar_tensor 1), [], [])
                   doubling_world
      = (Ok (Tensor (scalar_tensor (2 * 1)), [scalar_tensor (2 * 1)], [tt]), w')) /\
  (exists w',
      forward doubling_step keep_params (Tensor (scalar_tensor 1)) doubling_world
      = (Ok ([scalar_tensor (2 * 1); scalar_tensor (2 * (2 * 1))], [tt; tt]), w')) /\
  tzip fadd (scalar_tensor (2 * 1)) (scalar_tensor 1) = scalar_tensor (2 * 1 + 1) /\
  scalar_tensor (2 * 1) <> scalar_tensor (2 * 1 + 1).
Proof.
  split; [ eexists; reflexivity | ].
  split; [ eexists; reflexivity | ].
  split; [ reflexivity | ].
  unfold scalar_tensor. intro E. injection E. intros. lra.
Qed.

(** The two-step run of the doubling model and the inputs of its steps. *)
Lemma vrnn_forward_feedback_witness :
  length [scalar_tensor (2 * 1); scalar_tensor (2 * (2 * 1))]
  = Z.to_nat (max_time_steps (fst doubling_world)) /\
  exists x',
    feeds doubling_step 0 (scalar_tensor 1)
          [scalar_tensor (2 * 1); scalar_tensor (2 * (2 * 1))] x'.
Proof.
  eapply (vrnn_forward_feedback doubling_step keep_params
            (scalar_tensor 1) doubling_world (params := [tt; tt])).
  reflexivity.
Defined.

End RolloutExamples.

(** ** The loss of the abstract VAE *)

Section Loss.
Import VAE.

Context {P Rep : Type} {reparam : Reparameterizer P Rep}.
Variable nll_fn : tensor float -> tensor float -> string -> tensor float.
Variable kl : Rep -> P -> tensor float.
Variable mutual_info : Rep -> P -> tensor float.
Variable proxy_layer_loss : Rep -> option (tensor float).
Variable _clamp_mut_info : AbstractVAE (Rep := Rep) -> tensor float -> result (tensor float).

(** The target as [loss_function] compares it: rescaled to [-1, 1] for the
    pixel-autoregressive decoder. *)
Definition loss_target (v : AbstractVAE (Rep := Rep)) (x : tensor float) : tensor float :=
  if String.eqb (decoder_layer_type v) "pixelcnn"
  then tmap (fun a => fmul (fsub a (Fin (1 / 2))) (Fin 2)) x
  else x.

(** C8.  With [nll] the likelihood term and [kld] the divergence term that
    [loss_function] computes: a NaN in [nll] halts the call, and so does a
    NaN in [kld]; otherwise the call returns as soon as the mutual
    information is available, the returned [loss] is
    [(nll + kl_beta * kld) - mut_info] entry by entry, and the reported
    [elbo_mean] is the mean of the unweighted [nll + kld].  On real entries
    the loss is [n + kl_beta * k - m]. *)
Theorem vae_loss_function
    (v : AbstractVAE (Rep := Rep)) (recon_x x : tensor float) (params : P) :
  let run := loss_function nll_fn kl mutual_info proxy_layer_loss _clamp_mut_info
                           v recon_x x params in
  let nll := nll_fn (loss_target v x) recon_x (nll_type v) in
  let kld := kl (reparameterizer v) params in
  (has_nan nll = true -> run = Raise (NanHalt "nll")) /\
  (has_nan nll = false -> has_nan kld = true -> run = Raise (NanHalt "kld")) /\
  (has_nan nll = false -> has_nan kld = false ->
   match mut_info mutual_info _clamp_mut_info v params (size0 (loss_target v x)) with
   | Ok mi =>
       exists d,
         run = Ok d /\
         loss d = tzip fsub
                    (tzip fadd nll (tmap (fun k => fmul (Fin (kl_beta v)) k) kld)) mi /\
         loss_mean d = mean (loss d) /\
         elbo_mean d = mean (tzip fadd nll kld) /\
         nll_mean d = mean nll /\ kld_mean d = mean kld /\
         mut_info_mean d = mean mi
   | Raise e => run = Raise e
   end) /\
  (forall n k m : R,
      fsub (fadd (Fin n) (fmul (Fin (kl_beta v)) (Fin k))) (Fin m)
      = Fin (n + kl_beta v * k - m)).
Proof.
  intros run nll kld. subst run. unfold loss_function.
  fold (loss_target v x). fold nll. unfold kld at 1, VAE.kld. fold kld.
  unfold nan_check_and_break.
  split; [ | split; [ | split ] ].
  - intro Hn. rewrite Hn. reflexivity.
  - intros Hn Hk. rewrite Hn. cbn [Py.bind]. rewrite Hk. reflexivity.
  - intros Hn Hk. rewrite Hn. cbn [Py.bind]. rewrite Hk. cbn [Py.bind].
    destruct (mut_info mutual_info _clamp_mut_info v params (size0 (loss_target v x)))
      as [ mi | e ]; cbn [Py.bind]; [ | reflexivity ].
    eexists. split; [ reflexivity | ]. repeat split.
  - reflexivity.
Qed.

End Loss.

(** ** The mode of the reparameterizer across generation *)

Section GenerateVAE.
Import VAE.

Context {P Rep : Type} {reparam : Reparameterizer P Rep}.
Variable nll_activation_fn : tensor float -> string -> nat -> tensor float.
Variable generate_pixel_cnn : nat -> tensor float -> rng -> tensor float * rng.

(** The call that [generate_synthetic_samples] makes on the aggregate
    posterior, with the reparameterizer switched to evaluation mode. *)
Definition vae_aggregate_call (w : world (Rep := Rep))
  : result (tensor float * P) * Rep * rng :=
  rep_call (rep_train false (reparameterizer (fst w))) (ema_val (fst w)) (snd w).

Lemma vae_generate_mode (batch_size : nat) (w : world (Rep := Rep)) :
  let out := generate_synthetic_samples nll_activation_fn generate_pixel_cnn
               batch_size (Some true) w in
  match fst (fst (vae_aggregate_call w)) with
  | Ok _ =>
      is_ok (fst out) = true /\
      rep_training (reparameterizer (fst (snd out)))
      = rep_training (reparameterizer (fst w))
  | Raise e =>
      fst out = Raise e /\
      rep_training (reparameterizer (fst (snd out))) = false
  end.
Proof.
  unfold vae_aggregate_call, generate_synthetic_samples.
  cbn [flag]. unfold St.bind, St.get, St.ret, reparameterizer_train, St.modify,
    reparameterize. cbn [fst snd reparameterizer set_reparameterizer ema_val].
  pose proof (rep_call_training (rep_train false (reparameterizer (fst w)))
                (ema_val (fst w)) (snd w)) as Hc.
  rewrite rep_train_training in Hc.
  destruct (rep_call (rep_train false (reparameterizer (fst w))) (ema_val (fst w)) (snd w))
    as [ [ [ [zs p] | e ] rep ] g ]; cbn [fst snd] in *.
  - cbn [decoder_layer_type set_reparameterizer fst snd].
    destruct (String.eqb (decoder_layer_type (fst w)) "pixelcnn").
    + cbn [fst snd set_decoder reparameterizer set_reparameterizer decoder].
      destruct (generate_pixel_cnn _ _ g) as [o g'].
      cbn. split; [ reflexivity | apply rep_train_training ].
    + cbn. split; [ reflexivity | apply rep_train_training ].
  - cbn. split; [ reflexivity | exact Hc ].
Qed.

Lemma vae_generate_prior_mode (batch_size : nat) (o : option bool)
    (w : world (Rep := Rep)) :
  flag o = false ->
  let out := generate_synthetic_samples nll_activation_fn generate_pixel_cnn
               batch_size o w in
  is_ok (fst out) = true /\
  reparameterizer (fst (snd out)) = reparameterizer (fst w).
Proof.
  intro Hf. unfold generate_synthetic_samples. rewrite Hf.
  unfold St.bind, St.get, St.ret, reparameterizer_prior, St.modify.
  cbn [fst snd].
  destruct (rep_prior (reparameterizer (fst w)) batch_size
              (Some (generative_scale_var (fst w))) (snd w)) as [z g].
  cbn [fst snd].
  destruct (String.eqb (decoder_layer_type (fst w)) "pixelcnn").
  - cbn [fst snd]. destruct (generate_pixel_cnn _ _ g) as [o' g'].
    cbn. auto.
  - cbn. auto.
Qed.

End GenerateVAE.

Section GenerateVRNN.
Import VRNN.

Context {P Rep : Type} {reparam : Reparameterizer P Rep}.
Variables N PM : Type.
Variable step : tensor float -> St.M (world (Rep := Rep) N) (tensor float * PM).
Variable _decode_pixelcnn_or_normal
  : tensor float -> St.M (world (Rep := Rep) N) (tensor float).
Variable phi_z : N -> tensor float -> tensor float.
Variable ema_prior_logits : N -> tensor float.

Definition mode_of (w : world (Rep := Rep) N) : bool :=
  rep_training (reparameterizer (fst w)).

(** A method that leaves the mode of the reparameterizer as it found it,
    whatever its outcome. *)
Definition keeps_mode {A} (c : St.M (world (Rep := Rep) N) A) : Prop :=
  forall w, mode_of (snd (c w)) = mode_of w.

Hypothesis step_keeps_mode : forall x, keeps_mode (step x).
Hypothesis decode_keeps_mode : forall x, keeps_mode (_decode_pixelcnn_or_normal x).

Lemma generate_loop_keeps_mode (n : nat) :
  forall d l, keeps_mode (generate_loop step n d l).
Proof.
  induction n as [ | n IH ]; intros d l w; [ reflexivity | ].
  cbn [generate_loop]. unfold St.bind at 1.
  pose proof (step_keeps_mode d w) as Hs.
  destruct (step d w) as [ [ [d1 p] | e ] w1 ]; cbn [snd] in *; [ | exact Hs ].
  rewrite IH. exact Hs.
Qed.

(** What follows the sampling of the prior in [generate_synthetic_samples]. *)
Definition generate_rest (final_state z_prior_t : tensor float)
  : St.M (world (Rep := Rep) N) (tensor float) :=
  w <~ St.get ;;
  let phi_z_t := phi_z (nets (fst w)) z_prior_t in
  let dec_input_t := cat_last phi_z_t final_state in
  dec_output_t <~ _decode_pixelcnn_or_normal dec_input_t ;;
  w <~ St.get ;;
  decoded_list <~
    generate_loop step (Z.to_nat (max_time_steps (fst w) - 1)) dec_output_t [dec_output_t] ;;
  St.lift (cat0 decoded_list).

Lemma generate_rest_keeps_mode (fs z : tensor float) : keeps_mode (generate_rest fs z).
Proof.
  intro w. unfold generate_rest, St.bind, St.get, St.lift. cbn [fst snd].
  pose proof (decode_keeps_mode (cat_last (phi_z (nets (fst w)) z) fs) w) as Hd.
  destruct (_decode_pixelcnn_or_normal _ w) as [ [ d | e ] w1 ]; cbn [snd] in *;
    [ | exact Hd ].
  pose proof (generate_loop_keeps_mode
                (Z.to_nat (max_time_steps (fst w1) - 1)) d [d] w1) as Hl.
  destruct (generate_loop step _ d [d] w1) as [ [ l | e ] w2 ]; cbn [snd] in *;
    congruence.
Qed.

(** The state in which [generate_synthetic_samples] reaches the sampling of
    the prior, and the call that it then makes on the aggregate posterior. *)
Definition vrnn_after_reset (batch_size : nat) (reset_state : option bool)
    (w : world (Rep := Rep) N) : world (Rep := Rep) N :=
  snd ((if flag reset_state then memory_init_state batch_size else St.ret tt) w).

Definition vrnn_aggregate_call (w : world (Rep := Rep) N)
  : result (tensor float * P) * Rep * rng :=
  rep_call (rep_train false (reparameterizer (fst w)))
           (ema_prior_logits (nets (fst w))) (snd w).

Lemma vrnn_after_reset_mode (batch_size : nat) (reset_state : option bool)
    (w : world (Rep := Rep) N) :
  mode_of (vrnn_after_reset batch_size reset_state w) = mode_of w.
Proof.
  unfold vrnn_after_reset, memory_init_state.
  destruct (flag reset_state); [ | reflexivity ].
  destruct (Memory.init_state (memory (fst w)) batch_size false (snd w)). reflexivity.
Qed.

(** The sampling of the prior in [generate_synthetic_samples], from the
    state [w] in which it is reached. *)
Definition sample_prior (batch_size : nat) (use_agg : option bool)
    (w : world (Rep := Rep) N) : St.M (world (Rep := Rep) N) (tensor float) :=
  if flag use_agg then
    let training_tmp := rep_training (reparameterizer (fst w)) in
    reparameterizer_train false ;;~
    '(z_prior_t, _) <~ reparameterizer_call (ema_prior_logits (nets (fst w))) ;;
    reparameterizer_train training_tmp ;;~
    St.ret z_prior_t
  else
    reparameterizer_prior batch_size (Some (generative_scale_var (fst w))).

Lemma generate_unfold (batch_size : nat) (reset_state use_agg : option bool)
    (w : world (Rep := Rep) N) :
  generate_synthetic_samples step _decode_pixelcnn_or_normal phi_z
    ema_prior_logits batch_size reset_state use_agg w
  = let w1 := vrnn_after_reset batch_size reset_state w in
    match Memory.get_state (memory (fst w1)) with
    | Ok st =>
        St.bind (sample_prior batch_size use_agg w1)
                (generate_rest (mean0 (fst st))) w1
    | Raise e => (Raise e, w1)
    end.
Proof.
  unfold generate_synthetic_samples, vrnn_after_reset, sample_prior, generate_rest.
  unfold St.bind, St.get, St.lift, St.ret.
  destruct (flag reset_state).
  - unfold memory_init_state.
    destruct (Memory.init_state (memory (fst w)) batch_size false (snd w)) as [m g].
    cbn [fst snd].
    destruct (Memory.get_state (memory (set_memory m (fst w)))); reflexivity.
  - cbn [fst snd]. destruct (Memory.get_state (memory (fst w))); reflexivity.
Qed.

Lemma sample_prior_mode (batch_size : nat) (use_agg : option bool)
    (w : world (Rep := Rep) N) :
  let out := sample_prior batch_size use_agg w w in
  if flag use_agg then
    match fst (fst (vrnn_aggregate_call w)) with
    | Ok _ => is_ok (fst out) = true /\ mode_of (snd out) = mode_of w
    | Raise e => fst out = Raise e /\ mode_of (snd out) = false
    end
  else is_ok (fst out) = true /\ mode_of (snd out) = mode_of w.
Proof.
  unfold sample_prior, vrnn_aggregate_call. destruct (flag use_agg).
  - unfold St.bind, St.ret, reparameterizer_train, St.modify, reparameterizer_call.
    cbn [fst snd reparameterizer set_reparameterizer nets].
    pose proof (rep_call_training (rep_train false (reparameterizer (fst w)))
                  (ema_prior_logits (nets (fst w))) (snd w)) as Hc.
    rewrite rep_train_training in Hc.
    destruct (rep_call (rep_train false (reparameterizer (fst w)))
                (ema_prior_logits (nets (fst w))) (snd w))
      as [ [ [ [z p] | e ] rep ] g ]; cbn [fst snd] in *.
    + split; [ reflexivity | ]. unfold mode_of.
      cbn [fst snd reparameterizer set_reparameterizer].
      apply rep_train_training.
    + split; [ reflexivity | exact Hc ].
  - unfold reparameterizer_prior.
    destruct (rep_prior (reparameterizer (fst w)) batch_size
                (Some (generative_scale_var (fst w))) (snd w)) as [z g].
    split; reflexivity.
Qed.

Lemma vrnn_generate_mode (batch_size : nat) (reset_state use_agg : option bool)
    (w : world (Rep := Rep) N) :
  let out := generate_synthetic_samples step _decode_pixelcnn_or_normal phi_z
               ema_prior_logits batch_size reset_state use_agg w in
  let w1 := vrnn_after_reset batch_size reset_state w in
  if flag use_agg && is_ok (Memory.get_state (memory (fst w1))) then
    match fst (fst (vrnn_aggregate_call w1)) with
    | Ok _ => mode_of (snd out) = mode_of w
    | Raise e => fst out = Raise e /\ mode_of (snd out) = false
    end
  else mode_of (snd out) = mode_of w.
Proof.
  cbv zeta. rewrite generate_unfold. cbv zeta.
  pose proof (vrnn_after_reset_mode batch_size reset_state w) as H1.
  set (w1 := vrnn_after_reset batch_size reset_state w) in *.
  destruct (Memory.get_state (memory (fst w1))) as [ st | e ]; cbn [is_ok].
  2:{ rewrite andb_false_r. exact H1. }
  rewrite andb_true_r.
  pose proof (sample_prior_mode batch_size use_agg w1) as Hp. cbv zeta in Hp.
  unfold St.bind.
  destruct (flag use_agg).
  - destruct (fst (fst (vrnn_aggregate_call w1))) as [ zp | e ].
    + destruct Hp as [Hok Hm].
      destruct (sample_prior batch_size use_agg w1 w1) as [ [ z | e ] w2 ];
        cbn [fst snd is_ok] in *; [ | discriminate ].
      rewrite generate_rest_keeps_mode. congruence.
    + destruct Hp as [He Hm].
      destruct (sample_prior batch_size use_agg w1 w1) as [ [ z | e' ] w2 ];
        cbn [fst snd] in *; [ discriminate | ].
      split; [ exact He | exact Hm ].
  - destruct Hp as [Hok Hm].
    destruct (sample_prior batch_size use_agg w1 w1) as [ [ z | e ] w2 ];
      cbn [fst snd is_ok] in *; [ | discriminate ].
    rewrite generate_rest_keeps_mode. congruence.
Qed.

End GenerateVRNN.

(** C9, as the code has it.  With [use_aggregate_posterior] set, both
    [AbstractVAE.generate_synthetic_samples] and
    [VRNN.generate_synthetic_samples] switch the reparameterizer to
    evaluation mode, call it on the aggregate posterior, and then set its
    mode back to what it was.  When that call returns, the mode after
    generation is the mode before it: always for the abstract VAE, and for
    the VRNN whatever the later steps do to the outcome, as long as the
    step and the decoder leave the mode alone.  There is no scoped release:
    when the call raises, generation ends with that exception and the
    reparameterizer is left in evaluation mode.  When the flag is not set,
    or the VRNN fails its check of the memory state before the switch, the
    mode is not touched. *)
Theorem generate_restores_mode_on_return :
  (forall (P Rep : Type) (reparam : Reparameterizer P Rep)
          (nll_activation_fn : tensor float -> string -> nat -> tensor float)
          (generate_pixel_cnn : nat -> tensor float -> rng -> tensor float * rng)
          (batch_size : nat) (w : VAE.world (Rep := Rep)),
      let out := VAE.generate_synthetic_samples nll_activation_fn generate_pixel_cnn
                   batch_size (Some true) w in
      match fst (fst (vae_aggregate_call w)) with
      | Ok _ =>
          is_ok (fst out) = true /\
          rep_training (VAE.reparameterizer (fst (snd out)))
          = rep_training (VAE.reparameterizer (fst w))
      | Raise e =>
          fst out = Raise e /\
          rep_training (VAE.reparameterizer (fst (snd out))) = false
      end) /\
  (forall (P Rep : Type) (reparam : Reparameterizer P Rep)
          (nll_activation_fn : tensor float -> string -> nat -> tensor float)
          (generate_pixel_cnn : nat -> tensor float -> rng -> tensor float * rng)
          (batch_size : nat) (use_agg : option bool) (w : VAE.world (Rep := Rep)),
      flag use_agg = false ->
      let out := VAE.generate_synthetic_samples nll_activation_fn generate_pixel_cnn
                   batch_size use_agg w in
      is_ok (fst out) = true /\
      VAE.reparameterizer (fst (snd out)) = VAE.reparameterizer (fst w)) /\
  (forall (P Rep : Type) (reparam : Reparameterizer P Rep) (N PM : Type)
          (step : tensor float -> St.M (VRNN.world (Rep := Rep) N) (tensor float * PM))
          (_decode_pixelcnn_or_normal
             : tensor float -> St.M (VRNN.world (Rep := Rep) N) (tensor float))
          (phi_z : N -> tensor float -> tensor float)
          (ema_prior_logits : N -> tensor float)
          (batch_size : nat) (reset_state use_agg : option bool)
          (w : VRNN.world (Rep := Rep) N),
      (forall x, keeps_mode (step x)) ->
      (forall x, keeps_mode (_decode_pixelcnn_or_normal x)) ->
      let out := VRNN.generate_synthetic_samples step _decode_pixelcnn_or_normal
                   phi_z ema_prior_logits batch_size reset_state use_agg w in
      let w1 := vrnn_after_reset batch_size reset_state w in
      if flag use_agg && is_ok (Memory.get_state (VRNN.memory (fst w1))) then
        match fst (fst (vrnn_aggregate_call ema_prior_logits w1)) with
        | Ok _ => mode_of (snd out) = mode_of w
        | Raise e => fst out = Raise e /\ mode_of (snd out) = false
        end
      else mode_of (snd out) = mode_of w).
Proof.
  split; [ | split ].
  - intros. apply vae_generate_mode.
  - intros. apply vae_generate_prior_mode; assumption.
  - intros. apply vrnn_generate_mode; assumption.
Qed.

Section GenerateExamples.

(** An abstract VAE around the one-dimensional Gaussian module, in training
    mode, with an activation and a pixel sampler that return their
    argument, and an aggregate posterior of the given value. *)
Definition vae_with_ema (ema : tensor float)
  : VAE.world (Rep := Gaussian.IsotropicGaussian) :=
  ({| VAE.training := true;
      VAE.decoder_layer_type := "dense";
      VAE.nll_type := "bernoulli";
      VAE.chans := 1;
      VAE.kl_beta := 1;
      VAE.continuous_mut_info := 0;
      VAE.discrete_mut_info := 0;
      VAE.generative_scale_var := 1;
      VAE.reparameterizer := unit_gaussian;
      VAE.decoder := [];
      VAE.ema_val := ema |},
   unit_noise).

Definition vae_generate (w : VAE.world (Rep := Gaussian.IsotropicGaussian))
  : result (tensor float) * VAE.world (Rep := Gaussian.IsotropicGaussian) :=
  VAE.generate_synthetic_samples (reparam := gaussian_reparameterizer micro_eps)
    (fun lg _ _ => lg) (fun _ decoded g => (decoded, g)) 1 (Some true) w.

(** C9, counterexample.  The reparameterizer is in training mode.  With an
    aggregate posterior of odd width its call fails the assertion on the
    feature size, and with a NaN in the first half it halts on the NaN
    check; either way generation ends with that exception and the
    reparameterizer is left in evaluation mode. *)
Lemma generate_error_leaves_eval_mode :
  let odd := vae_with_ema (mkTensor [1; 3]%nat [[Fin 0; Fin 0; Fin 0]]) in
  let nan := vae_with_ema (mkTensor [1; 2]%nat [[NaN; Fin 0]]) in
  Gaussian.training (VAE.reparameterizer (fst odd)) = true /\
  fst (vae_generate odd) = Raise (AssertionError "") /\
  Gaussian.training (VAE.reparameterizer (fst (snd (vae_generate odd)))) = false /\
  Gaussian.training (VAE.reparameterizer (fst nan)) = true /\
  fst (vae_generate nan) = Raise (NanHalt "mu") /\
  Gaussian.training (VAE.reparameterizer (fst (snd (vae_generate nan)))) = false.
Proof. repeat split. Qed.

(** The two-step doubling model, generating from the aggregate posterior
    [zero_logits] after a reset of the memory. *)
Definition doubling_generate
  : result (tensor float) * VRNN.world (Rep := Gaussian.IsotropicGaussian) unit :=
  VRNN.generate_synthetic_samples (reparam := gaussian_reparameterizer micro_eps)
    doubling_step (fun x => St.ret x) (fun _ z => z) (fun _ => zero_logits)
    1 (Some true) (Some true) doubling_world.

(** The call on [zero_logits] returns, and the mode is as before. *)
Lemma generate_restores_mode_witness :
  mode_of (reparam := gaussian_reparameterizer micro_eps) (snd doubling_generate)
  = mode_of (reparam := gaussian_reparameterizer micro_eps) doubling_world.
Proof.
  exact (proj2 (proj2 generate_restores_mode_on_return) _ _
           (gaussian_reparameterizer micro_eps) unit unit
           doubling_step (fun x => St.ret x) (fun _ z => z) (fun _ => zero_logits)
           1%nat (Some true) (Some true) doubling_world
           (fun x w => eq_refl) (fun x w => eq_refl)).
Defined.

End GenerateExamples.

Section LossExamples.

(** A likelihood term that is the target itself, on a target that holds a
    NaN. *)
Lemma vae_loss_function_witness :
  VAE.loss_function (fun x _ _ => x) (fun _ _ => zeros [1%nat]) (fun _ _ => zeros [1%nat])
    (fun _ => None) (fun _ t => Ok t)
    (fst (vae_with_ema zero_logits)) (mkTensor [1%nat] [[Fin 0]])
    (mkTensor [1%nat] [[NaN]])
    {| Gaussian.z := zero_logits; Gaussian.logits := zero_logits;
       Gaussian.gaussian := {| Gaussian.mu := zero_logits;
                               Gaussian.logvar := zero_logits;
                               Gaussian.mu_mean := None;
                               Gaussian.logvar_mean := None |} |}
  = Raise (NanHalt "nll").
Proof.
  exact (proj1 (vae_loss_function (fun x _ _ => x) (fun _ _ => zeros [1%nat])
                  (fun _ _ => zeros [1%nat]) (fun _ => None) (fun _ t => Ok t)
                  (fst (vae_with_ema zero_logits)) (mkTensor [1%nat] [[Fin 0]])
                  (mkTensor [1%nat] [[NaN]]) _)
               eq_refl).
Defined.

End LossExamples.

(** ** The Gumbel-softmax sample and its parameters as distributions *)

Section GumbelSimplex.
Import Gumbel.













End GumbelSimplex.

(** ** The divergence of the Gumbel-softmax posterior from the uniform prior *)

Section GumbelDivergence.
Import Gumbel GumbelKL.

Lemma firstn_plus {A} (a b : nat) (l : list A) :
  firstn (a + b) l = firstn a l ++ firstn b (skipn a l).
Proof.
  revert l. induction a as [ | a IH ]; intro l; [ reflexivity | ].
  destruct l as [ | x l ]; simpl.
  - destruct b; reflexivity.
  - f_equal. apply IH.
Qed.

Lemma concat_chunks {A} (w n : nat) (l : list A) :
  concat (chunks w n l) = firstn (w * n) l.
Proof.
  revert l. induction n as [ | n IH ]; intro l; simpl.
  - rewrite Nat.mul_0_r. reflexivity.
  - rewrite IH. replace (w * S n)%nat with (w + w * n)%nat by lia.
    symmetry. apply firstn_plus.
Qed.

Lemma numel_last (s : list nat) :
  numel s = (last s 1 * numel (removelast s))%nat.
Proof.
  induction s as [ | a s IH ]; [ reflexivity | ].
  destruct s as [ | b s ].
  - simpl. lia.
  - change (numel (a :: b :: s)) with (a * numel (b :: s))%nat.
    change (last (a :: b :: s) 1%nat) with (last (b :: s) 1%nat).
    change (removelast (a :: b :: s)) with (a :: removelast (b :: s)).
    change (numel (a :: removelast (b :: s)))
      with (a * numel (removelast (b :: s)))%nat.
    rewrite IH. lia.
Qed.

(** The entries of a tensor filled with as many values as its shape
    holds are those values. *)
Lemma concat_fill {A} (s : list nat) (l : list A) :
  length l = numel s -> concat (rows (fill s l)) = l.
Proof.
  intro H. unfold fill. cbn [rows]. rewrite concat_chunks, <- numel_last, <- H.
  apply firstn_all.
Qed.



















End GumbelDivergence.

(** ** The floor of the temperature schedule *)

Section GumbelFloor.
Import Gumbel.









End GumbelFloor.

(** ** What the isotropic Gaussian reparameterizer accepts and returns *)

Section GaussianOutcome.
Import Gaussian.

Variable eps_fn : bool -> R.




Lemma has_nan_false (t : tensor float) :
  has_nan t = false <->
  forall r, In r (rows t) -> forall a, In a r -> is_nan a = false.
Proof.
  unfold has_nan. split.
  - intros H r Hr a Ha. destruct (is_nan a) eqn:E; [ | reflexivity ].
    rewrite <- H. symmetry. apply existsb_exists. exists r. split; [ exact Hr | ].
    apply existsb_exists. exists a. split; assumption.
  - intro H. destruct (existsb (existsb is_nan) (rows t)) eqn:E; [ | reflexivity ].
    apply existsb_exists in E. destruct E as (r & Hr & E).
    apply existsb_exists in E. destruct E as (a & Ha & E).
    rewrite (H r Hr a Ha) in E. discriminate E.
Qed.

Lemma in_zip_with {A B C} (f : A -> B -> C) (l : list A) (m : list B) (c : C) :
  In c (zip_with f l m) -> exists a b, In a l /\ In b m /\ c = f a b.
Proof.
  revert m. induction l as [ | a l IH ]; intros [ | b m ]; simpl; try tauto.
  intros [ <- | H ].
  - exists a, b. auto.
  - destruct (IH m H) as (a' & b' & Ha & Hb & E). exists a', b'. auto.
Qed.

(** An entrywise operation that is real on real arguments keeps tensors
    free of NaN. *)
Lemma has_nan_tzip (op : R -> R -> R) (t u : tensor float) :
  has_nan t = false -> has_nan u = false ->
  has_nan (tzip (lift2 op) t u) = false.
Proof.
  rewrite !has_nan_false. intros Ht Hu r Hr a Ha. unfold tzip in Hr. cbn [rows] in Hr.
  apply in_zip_with in Hr. destruct Hr as (x & y & Hx & Hy & ->).
  apply in_zip_with in Ha. destruct Ha as (p & q & Hp & Hq & ->).
  specialize (Ht x Hx p Hp). specialize (Hu y Hy q Hq).
  destruct p, q; try discriminate; reflexivity.
Qed.

Lemma in_chunks {A} (w n : nat) (l r : list A) (a : A) :
  In r (chunks w n l) -> In a r -> In a l.
Proof.
  revert l. induction n as [ | n IH ]; intros l; simpl; [ tauto | ].
  intros [ <- | H ] Ha.
  - rewrite <- (firstn_skipn w l). apply in_or_app. left. exact Ha.
  - rewrite <- (firstn_skipn w l). apply in_or_app. right. exact (IH _ H Ha).
Qed.

Lemma has_nan_normal (s : list nat) (mu sd : R) (g : rng) :
  has_nan (fst (normal_ s mu sd g)) = false.
Proof.
  apply has_nan_false. intros r Hr a Ha. unfold normal_, draws, fill in Hr.
  cbn [fst rows] in Hr. pose proof (in_chunks _ _ _ _ a Hr Ha) as H.
  apply in_map_iff in H. destruct H as (x & <- & _). reflexivity.
Qed.

Lemma has_nan_std (t : tensor float) :
  has_nan t = false ->
  has_nan (tmap (fun v => fexp (fmul v (Fin (1 / 2)))) t) = false.
Proof.
  rewrite !has_nan_false. intros H r Hr a Ha. unfold tmap in Hr. cbn [rows] in Hr.
  apply in_map_iff in Hr. destruct Hr as (x & <- & Hx).
  apply in_map_iff in Ha. destruct Ha as (p & <- & Hp).
  specialize (H x Hx p Hp). destruct p; [ reflexivity | discriminate ].
Qed.

(** X7.  What a returned sample is.  Whenever [forward] returns, the sample
    and both parameters have the shape of the logits with the last extent
    halved to [output_size]; [mu] is the first half of the features and
    [logvar] the second half plus the small constant; in evaluation mode
    the sample is [mu] and the generator is untouched; in training mode
    [logvar] holds no NaN; and for logits of rank 2 neither [mu] nor the
    sample holds a NaN, in either mode. *)
Theorem gaussian_forward_result
    (m : IsotropicGaussian) (lg : tensor float) (g g' : rng)
    (zs : tensor float) (p : out_params) :
  forward eps_fn m lg g = Ok ((zs, p), g') ->
  z p = zs /\ logits p = lg /\
  mu (gaussian p) = mu_half lg /\
  logvar (gaussian p) = logvar_half eps_fn m lg /\
  shape zs = with_last (shape lg) (output_size m) /\
  shape (mu (gaussian p)) = with_last (shape lg) (output_size m) /\
  shape (logvar (gaussian p)) = with_last (shape lg) (output_size m) /\
  (training m = false -> zs = mu_half lg /\ g' = g) /\
  (training m = true -> has_nan (logvar (gaussian p)) = false) /\
  (dim lg = 2%nat ->
   has_nan (mu (gaussian p)) = false /\ has_nan zs = false).
Proof.
  unfold forward, reparmeterize.
  destruct (((size_last lg mod 2 =? 0) && (size_last lg / 2 =? output_size m))%nat)
    eqn:Ha; cbn [Py.assert Py.bind]; [ | discriminate ].
  apply andb_prop in Ha. destruct Ha as [ Hev Hhalf ].
  apply Nat.eqb_eq in Hev, Hhalf.
  pose proof (Nat.div_mod_eq (size_last lg) 2) as Dm.
  assert (Smu : shape (mu_half lg) = with_last (shape lg) (output_size m)).
  { unfold mu_half, slice_to. cbn [shape]. f_equal. lia. }
  assert (Slv : shape (logvar_half eps_fn m lg) = with_last (shape lg) (output_size m)).
  { unfold logvar_half, slice_from, tmap. cbn [shape]. f_equal. lia. }
  fold (mu_half lg). fold (logvar_half eps_fn m lg).
  set (mu0 := mu_half lg) in *. set (lv := logvar_half eps_fn m lg) in *.
  assert (K : forall (chk : bool),
             (chk = true -> has_nan mu0 = false) ->
             (r <- _reparametrize_gaussian m mu0 lv g ;;
              (let '(z, gauss_params, g'0) := r in
               Ok (z, {| z := z; logits := lg;
                         gaussian := {| mu := mu gauss_params;
                                        logvar := logvar gauss_params;
                                        mu_mean := Some (mean (mu gauss_params));
                                        logvar_mean := Some (mean (logvar gauss_params)) |} |},
                   g'0)))
             = Ok (zs, p, g') ->
             z p = zs /\ logits p = lg /\ mu (gaussian p) = mu0 /\
             logvar (gaussian p) = lv /\
             shape zs = with_last (shape lg) (output_size m) /\
             shape (mu (gaussian p)) = with_last (shape lg) (output_size m) /\
             shape (logvar (gaussian p)) = with_last (shape lg) (output_size m) /\
             (training m = false -> zs = mu0 /\ g' = g) /\
             (training m = true -> has_nan (logvar (gaussian p)) = false) /\
             (chk = true -> has_nan (mu (gaussian p)) = false /\ has_nan zs = false)).
  { intros chk Hc. unfold _reparametrize_gaussian, nan_check_and_break.
    destruct (training m) eqn:Tr.
    - pose proof (has_nan_normal (shape lv) 0 1 g) as Hn.
      assert (Sn : shape (fst (normal_ (shape lv) 0 1 g)) = shape lv)
        by reflexivity.
      destruct (normal_ (shape lv) 0 1 g) as [ noise g1 ]. cbn [fst] in Hn, Sn.
      destruct (has_nan lv) eqn:Nl; cbn [Py.bind]; [ discriminate | ].
      intro H. injection H as <- <- <-.
      cbn [z logits gaussian mu logvar mu_logvar].
      repeat split; try assumption; try discriminate.
      + unfold tzip. cbn [shape]. rewrite Sn. exact Slv.
      + intros _. exact Nl.
      + apply Hc; assumption.
      + unfold fadd, fmul. apply has_nan_tzip; [ | apply Hc; assumption ].
        apply has_nan_tzip; [ exact Hn | apply has_nan_std; exact Nl ].
    - cbn [Py.bind]. intro H. injection H as <- <- <-.
      cbn [z logits gaussian mu logvar mu_logvar].
      repeat split; try assumption; try discriminate;
        apply Hc; assumption. }
  destruct (Nat.eqb_spec (dim lg) 2) as [ D2 | D2 ].
  - unfold nan_check_and_break. fold mu0.
    destruct (has_nan mu0) eqn:Nm; cbn [Py.bind]; [ discriminate | ].
    intro H. destruct (K true (fun _ => eq_refl) H)
      as (A1 & A2 & A3 & A4 & A5 & A6 & A7 & A8 & A9 & A10).
    repeat split; try assumption; try (apply A8; assumption);
      try (apply A9; assumption); apply A10; reflexivity.
  - destruct (Nat.eqb_spec (dim lg) 3) as [ D3 | D3 ]; [ | discriminate ].
    intro H. destruct (K false (fun C => False_ind _ (Bool.diff_false_true C)) H)
      as (A1 & A2 & A3 & A4 & A5 & A6 & A7 & A8 & A9 & A10).
    repeat split; try assumption; try (apply A8; assumption);
      try (apply A9; assumption); exfalso; apply D2; assumption.
Qed.

End GaussianOutcome.

Section GaussianOutcomeExamples.
Import Gaussian.


Lemma gaussian_forward_result_witness :
  exists zs p g',
    forward micro_eps unit_gaussian zero_logits unit_noise = Ok ((zs, p), g') /\
    z p = zs /\ logits p = zero_logits /\
    mu (gaussian p) = mu_half zero_logits /\
    logvar (gaussian p) = logvar_half micro_eps unit_gaussian zero_logits /\
    shape zs = with_last (shape zero_logits) (output_size unit_gaussian) /\
    shape (mu (gaussian p)) = with_last (shape zero_logits) (output_size unit_gaussian) /\
    shape (logvar (gaussian p)) = with_last (shape zero_logits) (output_size unit_gaussian) /\
    (training unit_gaussian = false -> zs = mu_half zero_logits /\ g' = unit_noise) /\
    (training unit_gaussian = true -> has_nan (logvar (gaussian p)) = false) /\
    (dim zero_logits = 2%nat ->
     has_nan (mu (gaussian p)) = false /\ has_nan zs = false).
Proof.
  eexists _, _, _. split; [ reflexivity | ].
  apply (@gaussian_forward_result micro_eps unit_gaussian zero_logits unit_noise).
  reflexivity.
Defined.

End GaussianOutcomeExamples.

(** ** The recurrent memory as a recorder of the recurrence *)

Section MemoryRecurrence.
Import Memory.





(** The all-zero tensor has as many entries as its shape holds, all 0. *)
Lemma zeros_entries (s : list nat) :
  concat (rows (zeros s)) = repeat (Fin 0) (numel s).
Proof. unfold zeros. apply concat_fill. apply repeat_length. Qed.


End MemoryRecurrence.

Section MemoryExamples.
Import Memory.





End MemoryExamples.

(** ** The clamping strategies of the mutual information *)

Section ClampStrategies.
Import MutInfo.


Lemma clamp_entry (c x : R) :
  exists y,
    clamp (- c) c (Fin x) = Fin y /\
    (0 <= c -> - c <= y <= c /\ (- c <= x <= c -> y = x) /\
               (x <= - c -> y = - c) /\ (c <= x -> y = c)) /\
    (c < 0 -> y = c).
Proof.
  exists (Rmin (Rmax x (- c)) c). split; [ reflexivity | ].
  unfold Rmin, Rmax.
  destruct (Rle_dec x (- c)); destruct (Rle_dec _ c);
    repeat split; intros; lra.
Qed.

Lemma clamp_idempotent (lo hi : R) (a : float) :
  clamp lo hi (clamp lo hi a) = clamp lo hi a.
Proof.
  destruct a as [ x | ]; [ | reflexivity ]. unfold clamp, lift1. f_equal.
  unfold Rmin, Rmax.
  destruct (Rle_dec x lo); destruct (Rle_dec _ hi);
    repeat (destruct (Rle_dec _ _)); lra.
Qed.

(** X10.  The strategy 'clamp'.  Under a strategy name that is 'clamp'
    once stripped and put in lower case, [_clamp_mut_info] returns a tensor
    of the same shape in which every entry is the clamped entry of the
    argument: a NaN stays; for a bound [c >= 0] a real entry is moved into
    [-c, c], being kept when it is inside and replaced by the nearer bound
    when it is not; for [c < 0] every real entry becomes [c].  Clamping a
    second time changes nothing. *)
Theorem clamp_strategy_bounds (cfg : config) (t : tensor float) :
  lower (strip (mut_clamp_strategy cfg)) = "clamp"%string ->
  exists t',
    _clamp_mut_info cfg t = Ok t' /\
    shape t' = shape t /\
    rows t' = map (map (clamp (- mut_clamp_value cfg) (mut_clamp_value cfg))) (rows t) /\
    clamp (- mut_clamp_value cfg) (mut_clamp_value cfg) NaN = NaN /\
    (forall x, exists y,
        clamp (- mut_clamp_value cfg) (mut_clamp_value cfg) (Fin x) = Fin y /\
        (0 <= mut_clamp_value cfg ->
         - mut_clamp_value cfg <= y <= mut_clamp_value cfg /\
         (- mut_clamp_value cfg <= x <= mut_clamp_value cfg -> y = x) /\
         (x <= - mut_clamp_value cfg -> y = - mut_clamp_value cfg) /\
         (mut_clamp_value cfg <= x -> y = mut_clamp_value cfg)) /\
        (mut_clamp_value cfg < 0 -> y = mut_clamp_value cfg)) /\
    _clamp_mut_info cfg t' = Ok t'.
Proof.
  intro Hk. unfold _clamp_mut_info. rewrite Hk. cbn [String.eqb Ascii.eqb Bool.eqb].
  cbn.
  eexists. split; [ reflexivity | ]. split; [ reflexivity | ].
  split; [ reflexivity | ]. split; [ reflexivity | ].
  split; [ intro x; apply clamp_entry | ].
  unfold tmap. cbn [shape rows]. do 2 f_equal.
  rewrite map_map. apply map_ext. intro r. rewrite map_map.
  apply map_ext. intro a. apply clamp_idempotent.
Qed.

Lemma clamp_strategy_bounds_witness :
  exists t',
    _clamp_mut_info {| mut_clamp_strategy := "  Clamp "; mut_clamp_value := 1 |}
                    (mkTensor [2]%nat [[Fin 3; NaN]]) = Ok t' /\
    shape t' = shape (mkTensor [2]%nat [[Fin 3; NaN]]) /\
    rows t' = map (map (clamp (- (1)) 1)) (rows (mkTensor [2]%nat [[Fin 3; NaN]])) /\
    clamp (- (1)) 1 NaN = NaN /\
    (forall x, exists y,
        clamp (- (1)) 1 (Fin x) = Fin y /\
        (0 <= 1 ->
         - (1) <= y <= 1 /\
         (- (1) <= x <= 1 -> y = x) /\
         (x <= - (1) -> y = - (1)) /\
         (1 <= x -> y = 1)) /\
        (1 < 0 -> y = 1)) /\
    _clamp_mut_info {| mut_clamp_strategy := "  Clamp "; mut_clamp_value := 1 |} t' = Ok t'.
Proof.
  apply (@clamp_strategy_bounds
           {| mut_clamp_strategy := "  Clamp "; mut_clamp_value := 1 |}
           (mkTensor [2]%nat [[Fin 3; NaN]])).
  reflexivity.
Defined.









End ClampStrategies.

(** ** The mutual information in the loss *)

Section LossMutInfo.
Import VAE MutInfo.

Context {P Rep : Type} {reparam : Reparameterizer P Rep}.
Variable nll_fn : tensor float -> tensor float -> string -> tensor float.
Variable kl : Rep -> P -> tensor float.
Variable proxy_layer_loss : Rep -> option (tensor float).

Lemma Rgtb_pos (a : R) : 0 < a -> Rgtb a 0 = true.
Proof. intro H. unfold Rgtb. destruct (Rlt_dec 0 a); [ reflexivity | lra ]. Qed.

Lemma Rgtb_nonpos (a : R) : a <= 0 -> Rgtb a 0 = false.
Proof. intro H. unfold Rgtb. destruct (Rlt_dec 0 a); [ lra | reflexivity ]. Qed.

Lemma fsum_nan (l : list float) :
  (exists a, In a l /\ is_nan a = true) -> fsum l = NaN.
Proof.
  induction l as [ | b l IH ]; intros (a & Ha & Na); [ destruct Ha | ].
  simpl. destruct Ha as [ -> | Ha ].
  - destruct a; [ discriminate Na | reflexivity ].
  - rewrite IH by (exists a; split; assumption).
    destruct b; reflexivity.
Qed.

Lemma mean_nan (t : tensor float) : has_nan t = true -> mean t = NaN.
Proof.
  intro H. unfold has_nan in H. apply existsb_exists in H.
  destruct H as (r & Hr & H). apply existsb_exists in H.
  destruct H as (a & Ha & Na).
  assert (I : In a (concat (rows t)))
    by (apply in_concat; exists r; split; assumption).
  unfold mean. destruct (concat (rows t)) as [ | b l ] eqn:E; [ reflexivity | ].
  rewrite fsum_nan by (exists a; split; assumption). reflexivity.
Qed.

(** X12.  The mutual information is not checked for NaN.  With a positive
    mutual-information weight, when the likelihood and divergence terms
    hold no NaN and the clamped mutual information holds one (as the
    strategy 'norm' gives for a mutual information that is all zero),
    [loss_function] does not halt: it returns its dictionary, in which
    [mut_info_mean] is NaN and [loss] is computed from the clamped tensor. *)
Theorem loss_mut_info_nan_unchecked
    (mutual_info : Rep -> P -> tensor float) (cfg : config)
    (v : AbstractVAE (Rep := Rep)) (recon_x x : tensor float) (params : P)
    (mi : tensor float) :
  has_nan (nll_fn (loss_target v x) recon_x (nll_type v)) = false ->
  has_nan (kl (reparameterizer v) params) = false ->
  0 < continuous_mut_info v \/ 0 < discrete_mut_info v ->
  _clamp_mut_info cfg (mutual_info (reparameterizer v) params) = Ok mi ->
  has_nan mi = true ->
  exists d,
    loss_function nll_fn kl mutual_info proxy_layer_loss
                  (fun _ => _clamp_mut_info cfg) v recon_x x params = Ok d /\
    mut_info_mean d = NaN /\
    loss d = tzip fsub
               (tzip fadd (nll_fn (loss_target v x) recon_x (nll_type v))
                  (tmap (fun k => fmul (Fin (kl_beta v)) k)
                        (kl (reparameterizer v) params)))
               mi.
Proof.
  intros Hn Hk Hw Hc Hm. unfold loss_function.
  fold (loss_target v x). unfold VAE.kld, nan_check_and_break.
  rewrite Hn. cbn [Py.bind]. rewrite Hk. cbn [Py.bind].
  unfold mut_info.
  assert (W : Rgtb (continuous_mut_info v) 0 || Rgtb (discrete_mut_info v) 0 = true).
  { destruct Hw as [ H | H ]; rewrite (Rgtb_pos H);
      [ reflexivity | apply orb_true_r ]. }
  rewrite W, Hc. cbn [Py.bind].
  eexists. split; [ reflexivity | ]. cbn [mut_info_mean loss].
  split; [ apply mean_nan; exact Hm | reflexivity ].
Qed.

(** X13.  A strategy name that is not in the map.  For a name of ASCII
    characters that, stripped and in lower case, is none of 'none', 'norm'
    and 'clamp', and likelihood and divergence terms without NaN:
    [loss_function] raises [KeyError] with the normalised name when a
    mutual-information weight is positive, and when neither is it never
    looks the strategy up, returns its dictionary, and uses an all-zero
    mutual information with one entry per element of the batch. *)
Theorem loss_unknown_strategy
    (mutual_info : Rep -> P -> tensor float) (cfg : config)
    (v : AbstractVAE (Rep := Rep)) (recon_x x : tensor float) (params : P) :
  is_ascii (mut_clamp_strategy cfg) = true ->
  lower (strip (mut_clamp_strategy cfg)) <> "none"%string ->
  lower (strip (mut_clamp_strategy cfg)) <> "norm"%string ->
  lower (strip (mut_clamp_strategy cfg)) <> "clamp"%string ->
  has_nan (nll_fn (loss_target v x) recon_x (nll_type v)) = false ->
  has_nan (kl (reparameterizer v) params) = false ->
  (0 < continuous_mut_info v \/ 0 < discrete_mut_info v ->
   loss_function nll_fn kl mutual_info proxy_layer_loss
                 (fun _ => _clamp_mut_info cfg) v recon_x x params
   = Raise (KeyError (lower (strip (mut_clamp_strategy cfg))))) /\
  (continuous_mut_info v <= 0 -> discrete_mut_info v <= 0 ->
   exists d,
     loss_function nll_fn kl mutual_info proxy_layer_loss
                   (fun _ => _clamp_mut_info cfg) v recon_x x params = Ok d /\
     loss d = tzip fsub
                (tzip fadd (nll_fn (loss_target v x) recon_x (nll_type v))
                   (tmap (fun k => fmul (Fin (kl_beta v)) k)
                         (kl (reparameterizer v) params)))
                (zeros [size0 (loss_target v x)]) /\
     concat (rows (zeros [size0 (loss_target v x)]))
     = repeat (Fin 0) (size0 (loss_target v x))).
Proof.
  intros _ N1 N2 N3 Hn Hk. unfold loss_function.
  fold (loss_target v x). unfold VAE.kld, nan_check_and_break.
  rewrite Hn. cbn [Py.bind]. rewrite Hk. cbn [Py.bind].
  unfold mut_info. split.
  - intro Hw.
    assert (W : Rgtb (continuous_mut_info v) 0 || Rgtb (discrete_mut_info v) 0 = true).
    { destruct Hw as [ H | H ]; rewrite (Rgtb_pos H);
        [ reflexivity | apply orb_true_r ]. }
    rewrite W. unfold _clamp_mut_info.
    apply String.eqb_neq in N1, N2, N3. rewrite N1, N2, N3. reflexivity.
  - intros Hc Hd. rewrite (Rgtb_nonpos Hc), (Rgtb_nonpos Hd). cbn [orb Py.bind].
    eexists. split; [ reflexivity | ]. split; [ reflexivity | ].
    rewrite zeros_entries. f_equal. simpl. lia.
Qed.

End LossMutInfo.

Section LossMutInfoExamples.
Import VAE MutInfo.

(** A model on one-entry batches whose likelihood term is the target,
    whose divergence and mutual information are zero, with a positive
    weight on the mutual information. *)
Definition mi_vae (w : R) : AbstractVAE (Rep := Gaussian.IsotropicGaussian) :=
  {| training := true; decoder_layer_type := "dense"; nll_type := "bernoulli";
     chans := 1; kl_beta := 1; continuous_mut_info := w; discrete_mut_info := 0;
     generative_scale_var := 1; reparameterizer := unit_gaussian;
     decoder := []; ema_val := zero_logits |}.

Definition zero_batch : tensor float := mkTensor [1]%nat [[Fin 0]].

Lemma loss_mut_info_nan_unchecked_witness :
  exists d,
    loss_function (P := Gaussian.out_params)
      (fun x _ _ => x) (fun _ _ => zero_batch) (fun _ _ => zero_batch)
      (fun _ => None)
      (fun _ => _clamp_mut_info {| mut_clamp_strategy := "norm"; mut_clamp_value := 0 |})
      (mi_vae 1) zero_batch zero_batch
      {| Gaussian.z := zero_batch; Gaussian.logits := zero_batch;
         Gaussian.gaussian := Gaussian.mu_logvar zero_batch zero_batch |}
    = Ok d /\
    mut_info_mean d = NaN /\
    loss d = tzip fsub
               (tzip fadd zero_batch
                  (tmap (fun k => fmul (Fin (kl_beta (mi_vae 1))) k) zero_batch))
               (mkTensor [1]%nat [[NaN]]).
Proof.
  apply (@loss_mut_info_nan_unchecked Gaussian.out_params Gaussian.IsotropicGaussian
           (fun x _ _ => x) (fun _ _ => zero_batch) (fun _ => None)
           (fun _ _ => zero_batch)
           {| mut_clamp_strategy := "norm"; mut_clamp_value := 0 |}
           (mi_vae 1) zero_batch zero_batch
           {| Gaussian.z := zero_batch; Gaussian.logits := zero_batch;
              Gaussian.gaussian := Gaussian.mu_logvar zero_batch zero_batch |}
           (mkTensor [1]%nat [[NaN]])).
  - reflexivity.
  - reflexivity.
  - left. simpl. lra.
  - unfold _clamp_mut_info, norm, zero_batch. simpl.
    replace (0 * 0 + 0) with 0 by lra. rewrite sqrt_0.
    unfold tmap, fdiv. cbn [shape rows map].
    destruct (Req_dec_T 0 0); [ reflexivity | lra ].
  - reflexivity.
Defined.

Lemma loss_unknown_strategy_witness :
  (0 < continuous_mut_info (mi_vae 1) \/ 0 < discrete_mut_info (mi_vae 1) ->
   loss_function (P := Gaussian.out_params)
     (fun x _ _ => x) (fun _ _ => zero_batch) (fun _ _ => zero_batch)
     (fun _ => None)
     (fun _ => _clamp_mut_info {| mut_clamp_strategy := "Clip"; mut_clamp_value := 0 |})
     (mi_vae 1) zero_batch zero_batch
     {| Gaussian.z := zero_batch; Gaussian.logits := zero_batch;
        Gaussian.gaussian := Gaussian.mu_logvar zero_batch zero_batch |}
   = Raise (KeyError (lower (strip "Clip")))) /\
  (continuous_mut_info (mi_vae 1) <= 0 -> discrete_mut_info (mi_vae 1) <= 0 ->
   exists d,
     loss_function (P := Gaussian.out_params)
       (fun x _ _ => x) (fun _ _ => zero_batch) (fun _ _ => zero_batch)
       (fun _ => None)
       (fun _ => _clamp_mut_info {| mut_clamp_strategy := "Clip"; mut_clamp_value := 0 |})
       (mi_vae 1) zero_batch zero_batch
       {| Gaussian.z := zero_batch; Gaussian.logits := zero_batch;
          Gaussian.gaussian := Gaussian.mu_logvar zero_batch zero_batch |}
     = Ok d /\
     loss d = tzip fsub
                (tzip fadd zero_batch
                   (tmap (fun k => fmul (Fin (kl_beta (mi_vae 1))) k) zero_batch))
                (zeros [size0 (loss_target (mi_vae 1) zero_batch)]) /\
     concat (rows (zeros [size0 (loss_target (mi_vae 1) zero_batch)]))
     = repeat (Fin 0) (size0 (loss_target (mi_vae 1) zero_batch))).
Proof.
  apply (@loss_unknown_strategy Gaussian.out_params Gaussian.IsotropicGaussian
           (fun x _ _ => x) (fun _ _ => zero_batch) (fun _ => None)
           (fun _ _ => zero_batch)
           {| mut_clamp_strategy := "Clip"; mut_clamp_value := 0 |}
           (mi_vae 1) zero_batch zero_batch
           {| Gaussian.z := zero_batch; Gaussian.logits := zero_batch;
              Gaussian.gaussian := Gaussian.mu_logvar zero_batch zero_batch |});
    try reflexivity; discriminate.
Defined.

End LossMutInfoExamples.

(** ** The VRNN loss over the time steps *)

Section LossOverSteps.
Import VRNN VRNNLoss.

Variable PM : Type.
Variable super_loss_function
  : tensor float -> tensor float -> PM -> result VAE.loss_map.

Lemma rev_last_cons {A} (l : list A) (d : A) :
  l <> [] -> rev l = last l d :: rev (removelast l).
Proof.
  intro H. rewrite (app_removelast_last d H) at 1.
  rewrite rev_app_distr. reflexivity.
Qed.

(** X14.  One target for many reconstructions.  When the target is a
    single tensor whose first extent differs from the number [n] of
    reconstructions, every time step is scored on the last reconstruction
    only: the call is the one on [n] copies of the last reconstruction and
    [n] copies of the target, both scaled by [1/n], so that two calls whose
    reconstructions have the same number and the same last element give
    the same outcome. *)
Theorem vrnn_loss_single_target
    (recon : list (tensor float)) (x : tensor float) (params : list PM) :
  shape x <> [] -> recon <> [] -> size0 x <> length recon ->
  loss_function super_loss_function recon (Tensor x) params
  = loss_function super_loss_function
      (repeat (tmap (fmul (Fin (1 / INR (length recon)))) (last recon x))
              (length recon))
      (TensorList (repeat (tmap (fmul (Fin (1 / INR (length recon)))) x)
                          (length recon)))
      params /\
  forall recon' : list (tensor float),
    length recon' = length recon -> last recon' x = last recon x ->
    loss_function super_loss_function recon' (Tensor x) params
    = loss_function super_loss_function recon (Tensor x) params.
Proof.
  intros _ Hne Hs.
  assert (G : forall r : list (tensor float),
             r <> [] -> size0 x <> length r ->
             loss_function super_loss_function r (Tensor x) params
             = loss_function super_loss_function
                 (repeat (tmap (fmul (Fin (1 / INR (length r)))) (last r x))
                         (length r))
                 (TensorList (repeat (tmap (fmul (Fin (1 / INR (length r)))) x)
                                     (length r)))
                 params).
  { intros r Hr Hx. unfold loss_function. rewrite repeat_length.
    destruct (Py.assert _ _) as [ [] | e ]; cbn [Py.bind]; [ | reflexivity ].
    destruct (Nat.eqb_spec (size0 x) (length r)) as [ E | _ ]; [ contradiction | ].
    cbn [negb].
    destruct (Nat.eqb_spec (length r) 0) as [ E | _ ].
    { destruct r; [ contradiction | discriminate E ]. }
    rewrite (rev_last_cons x Hr). reflexivity. }
  split; [ apply G; assumption | ].
  intros recon' Hl Hlast.
  rewrite (G recon'), (G recon); try assumption.
  - rewrite Hl, Hlast. reflexivity.
  - intro E. subst recon'. destruct recon; [ contradiction | discriminate Hl ].
  - rewrite Hl. exact Hs.
Qed.

(** X15.  Containers that do not fit.  [loss_function] fails its
    assertion when the numbers of reconstructions and of parameter maps
    differ.  With no time step at all, or with an empty list of targets,
    the loop never runs and the reduction of the missing aggregate raises
    [AttributeError]; with no time step and a single target tensor of a
    first extent other than 0, the scale [1.0 / 0] raises
    [ZeroDivisionError]. *)
Theorem vrnn_loss_containers :
  (forall (recon : list (tensor float)) (x : input) (params : list PM),
      length recon <> length params ->
      loss_function super_loss_function recon x params
      = Raise (AssertionError EmptyString)) /\
  (forall l : list (tensor float),
      loss_function super_loss_function [] (TensorList l) []
      = Raise (AttributeError "keys")) /\
  (forall (recon : list (tensor float)) (params : list PM),
      length recon = length params ->
      loss_function super_loss_function recon (TensorList []) params
      = Raise (AttributeError "keys")) /\
  (forall x : tensor float,
      size0 x <> O ->
      loss_function super_loss_function [] (Tensor x) []
      = Raise ZeroDivisionError).
Proof.
  repeat split.
  - intros recon x params H. unfold loss_function.
    destruct (Nat.eqb_spec (length recon) (length params)); [ contradiction | ].
    reflexivity.
  - intros recon params H. unfold loss_function. rewrite H, Nat.eqb_refl.
    cbn [Py.assert Py.bind]. destruct recon; reflexivity.
  - intros x H. unfold loss_function. cbn [length Nat.eqb Py.assert Py.bind].
    destruct (Nat.eqb_spec (size0 x) 0); [ contradiction | reflexivity ].
Qed.

(** The outcomes of the base loss on the zipped containers, in order. *)
Fixpoint steps (recon xs : list (tensor float)) (params : list PM)
  : list (result VAE.loss_map) :=
  match recon, xs, params with
  | r :: rs, x :: xs', p :: ps => super_loss_function r x p :: steps rs xs' ps
  | _, _, _ => []
  end.

Lemma aggregate_loop_ok (ls : list VAE.loss_map) :
  forall (recon xs : list (tensor float)) (params : list PM) (t : VAE.loss_map) (c : nat),
    steps recon xs params = map Ok ls ->
    aggregate_loop super_loss_function recon xs params
                   (Some {| totals := t; count := c |})
    = Ok (Some {| totals := fold_left add_values ls t;
                  count := c + length ls |}).
Proof.
  induction ls as [ | l ls IH ]; intros recon xs params t c H.
  - destruct recon as [ | r rs ]; [ | destruct xs as [ | x xs ];
      [ | destruct params as [ | p ps ] ] ];
      try discriminate H; simpl; rewrite Nat.add_0_r; reflexivity.
  - destruct recon as [ | r rs ]; [ discriminate H | ].
    destruct xs as [ | x xs ]; [ discriminate H | ].
    destruct params as [ | p ps ]; [ discriminate H | ].
    simpl in H. injection H as Hr Hs. cbn [aggregate_loop]. rewrite Hr.
    cbn [Py.bind _add_loss_map totals count].
    rewrite (IH rs xs ps _ _ Hs). cbn [fold_left length].
    do 3 f_equal. lia.
Qed.

Lemma aggregate_loop_raise (ls : list VAE.loss_map) :
  forall (recon xs : list (tensor float)) (params : list PM)
         (agg : option aggregate) (e : exn) (rest : list (result VAE.loss_map)),
    steps recon xs params = map Ok ls ++ Raise e :: rest ->
    aggregate_loop super_loss_function recon xs params agg = Raise e.
Proof.
  induction ls as [ | l ls IH ]; intros recon xs params agg e rest H;
    (destruct recon as [ | r rs ]; [ discriminate H | ]);
    (destruct xs as [ | x xs ]; [ discriminate H | ]);
    (destruct params as [ | p ps ]; [ discriminate H | ]);
    simpl in H; injection H as Hr Hs; cbn [aggregate_loop]; rewrite Hr;
    cbn [Py.bind].
  - reflexivity.
  - exact (IH rs xs ps _ e rest Hs).
Qed.

Lemma div_count_one (a : float) : div_count 1 a = a.
Proof.
  destruct a as [ x | ]; [ | reflexivity ]. unfold div_count, lift1. f_equal.
  simpl. field.
Qed.

Lemma map_values_one (a : VAE.loss_map) : map_values (div_count 1) a = a.
Proof.
  destruct a as [ [ s r ] ? ? ? ? ? ? ]. unfold map_values, tmap.
  cbn [VAE.loss VAE.loss_mean VAE.elbo_mean VAE.nll_mean VAE.kld_mean
       VAE.proxy_mean VAE.mut_info_mean shape rows].
  rewrite !div_count_one. do 2 f_equal.
  rewrite <- (map_id r) at 2. apply map_ext. intro l.
  rewrite <- (map_id l) at 2. apply map_ext. apply div_count_one.
Qed.

(** X16.  The reduction over the time steps.  With as many reconstructions
    as parameter maps and a list of targets, the base loss runs on the
    zipped triples in order.  If every run returns, the result holds, under
    each key, the sum of the values of the runs divided by their number,
    and that number as ['count']; for a single run it is the dictionary of
    that run unchanged.  If a run raises, the call raises the same
    exception and later triples are not visited. *)
Theorem vrnn_loss_mean_over_steps
    (recon xs : list (tensor float)) (params : list PM) :
  length recon = length params ->
  (forall (l0 : VAE.loss_map) (ls : list VAE.loss_map),
      steps recon xs params = map Ok (l0 :: ls) ->
      loss_function super_loss_function recon (TensorList xs) params
      = Ok {| totals := map_values (div_count (S (length ls)))
                                   (fold_left add_values ls l0);
              count := S (length ls) |}) /\
  (forall l0 : VAE.loss_map,
      steps recon xs params = [Ok l0] ->
      loss_function super_loss_function recon (TensorList xs) params
      = Ok {| totals := l0; count := 1 |}) /\
  (forall (ls : list VAE.loss_map) (e : exn) (rest : list (result VAE.loss_map)),
      steps recon xs params = map Ok ls ++ Raise e :: rest ->
      loss_function super_loss_function recon (TensorList xs) params = Raise e).
Proof.
  intro Hl.
  assert (G : forall (l0 : VAE.loss_map) (ls : list VAE.loss_map),
             steps recon xs params = map Ok (l0 :: ls) ->
             loss_function super_loss_function recon (TensorList xs) params
             = Ok {| totals := map_values (div_count (S (length ls)))
                                          (fold_left add_values ls l0);
                     count := S (length ls) |}).
  { intros l0 ls H. unfold loss_function. rewrite Hl, Nat.eqb_refl.
    cbn [Py.assert Py.bind].
    destruct recon as [ | r rs ]; [ discriminate H | ].
    destruct xs as [ | x xs' ]; [ discriminate H | ].
    destruct params as [ | p ps ]; [ discriminate H | ].
    simpl in H. injection H as Hr Hs. cbn [aggregate_loop]. rewrite Hr.
    cbn [Py.bind _add_loss_map].
    rewrite (aggregate_loop_ok ls rs xs' ps _ _ Hs). cbn [Py.bind _mean_map totals count].
    reflexivity. }
  split; [ exact G | ]. split.
  - intros l0 H. rewrite (G l0 [] H). cbn [length fold_left].
    rewrite map_values_one. reflexivity.
  - intros ls e rest H. unfold loss_function. rewrite Hl, Nat.eqb_refl.
    cbn [Py.assert Py.bind].
    rewrite (aggregate_loop_raise ls recon xs params None e rest H). reflexivity.
Qed.

End LossOverSteps.

Section LossOverStepsExamples.
Import VRNN VRNNLoss.

(** A base loss that reports the reconstruction as the loss and zero
    elsewhere. *)
Definition echo_loss (recon_x x : tensor float) (p : unit) : result VAE.loss_map :=
  Ok {| VAE.loss := recon_x; VAE.loss_mean := Fin 0; VAE.elbo_mean := Fin 0;
        VAE.nll_mean := Fin 0; VAE.kld_mean := Fin 0; VAE.proxy_mean := Fin 0;
        VAE.mut_info_mean := Fin 0 |}.

Lemma vrnn_loss_single_target_witness :
  loss_function echo_loss [scalar_tensor 1; scalar_tensor 2]
                (Tensor (scalar_tensor 3)) [tt; tt]
  = loss_function echo_loss
      (repeat (tmap (fmul (Fin (1 / INR (length [scalar_tensor 1; scalar_tensor 2]))))
                    (last [scalar_tensor 1; scalar_tensor 2] (scalar_tensor 3)))
              (length [scalar_tensor 1; scalar_tensor 2]))
      (TensorList
         (repeat (tmap (fmul (Fin (1 / INR (length [scalar_tensor 1; scalar_tensor 2]))))
                       (scalar_tensor 3))
                 (length [scalar_tensor 1; scalar_tensor 2])))
      [tt; tt] /\
  forall recon' : list (tensor float),
    length recon' = length [scalar_tensor 1; scalar_tensor 2] ->
    last recon' (scalar_tensor 3) = last [scalar_tensor 1; scalar_tensor 2] (scalar_tensor 3) ->
    loss_function echo_loss recon' (Tensor (scalar_tensor 3)) [tt; tt]
    = loss_function echo_loss [scalar_tensor 1; scalar_tensor 2]
                    (Tensor (scalar_tensor 3)) [tt; tt].
Proof.
  apply (@vrnn_loss_single_target unit echo_loss
           [scalar_tensor 1; scalar_tensor 2] (scalar_tensor 3) [tt; tt]).
  - discriminate.
  - discriminate.
  - unfold scalar_tensor, size0. simpl. lia.
Defined.

Lemma vrnn_loss_mean_over_steps_witness :
  (forall (l0 : VAE.loss_map) (ls : list VAE.loss_map),
      steps echo_loss [scalar_tensor 1; scalar_tensor 2]
            [scalar_tensor 3; scalar_tensor 4] [tt; tt] = map Ok (l0 :: ls) ->
      loss_function echo_loss [scalar_tensor 1; scalar_tensor 2]
                    (TensorList [scalar_tensor 3; scalar_tensor 4]) [tt; tt]
      = Ok {| totals := map_values (div_count (S (length ls)))
                                   (fold_left add_values ls l0);
              count := S (length ls) |}) /\
  (forall l0 : VAE.loss_map,
      steps echo_loss [scalar_tensor 1; scalar_tensor 2]
            [scalar_tensor 3; scalar_tensor 4] [tt; tt] = [Ok l0] ->
      loss_function echo_loss [scalar_tensor 1; scalar_tensor 2]
                    (TensorList [scalar_tensor 3; scalar_tensor 4]) [tt; tt]
      = Ok {| totals := l0; count := 1 |}) /\
  (forall (ls : list VAE.loss_map) (e : exn) (rest : list (result VAE.loss_map)),
      steps echo_loss [scalar_tensor 1; scalar_tensor 2]
            [scalar_tensor 3; scalar_tensor 4] [tt; tt]
      = map Ok ls ++ Raise e :: rest ->
      loss_function echo_loss [scalar_tensor 1; scalar_tensor 2]
                    (TensorList [scalar_tensor 3; scalar_tensor 4]) [tt; tt]
      = Raise e).
Proof.
  apply (@vrnn_loss_mean_over_steps unit echo_loss
           [scalar_tensor 1; scalar_tensor 2]
           [scalar_tensor 3; scalar_tensor 4] [tt; tt]).
  reflexivity.
Defined.

End LossOverStepsExamples.

(** ** The memory buffer across the time steps of the VRNN *)

Section StepEffects.
Import VRNNStep.

Context {P Rep : Type} {reparam : Reparameterizer P Rep}.
Variable E : Type.
Variable ema_call : E -> tensor float -> E.
Variable ema_val : E -> tensor float.
Variable add_noise_to_imgs : tensor float -> rng -> tensor float * rng.
Variable _lazy_build_phi_x : list nat -> net.
Variable vrnn_enc : nat -> Rep -> net.
Variable nll_activation_fn : tensor float -> string -> nat -> tensor float.
Variable generate_pixel_cnn : nat -> tensor float -> rng -> tensor float * rng.
Variable num_continuous_input : Rep -> option nat.
Variable set_q_z_given_xhat : P -> P -> P.

Local Notation "'World'" := (world (Rep := Rep) E).
Local Notation "'the_step'" :=
  (step ema_call add_noise_to_imgs _lazy_build_phi_x vrnn_enc num_continuous_input).
Local Notation "'the_posterior'" :=
  (posterior ema_call _lazy_build_phi_x vrnn_enc num_continuous_input).
Local Notation "'the_mi_params'" :=
  (_compute_mi_params ema_call _lazy_build_phi_x vrnn_enc nll_activation_fn
                      num_continuous_input set_q_z_given_xhat).
Local Notation "'the_decoder'" :=
  (_decode_pixelcnn_or_normal nll_activation_fn generate_pixel_cnn).

(** The history buffer of the memory of the object, and the number of time
    steps of its configuration. *)
Definition buffer (w : World) : list Memory.snapshot :=
  Memory.memory_buffer (VRNN.memory (fst w)).

Definition horizon (w : World) : Z := VRNN.max_time_steps (fst w).

(** From [w] to [w'] the buffer has been extended at its end, by [n]
    snapshots exactly or by at most [n], and the number of time steps is
    the same. *)
Definition grown (exact : bool) (n : nat) (w w' : World) : Prop :=
  horizon w' = horizon w /\
  exists extra,
    buffer w' = buffer w ++ extra /\
    if exact then length extra = n else (length extra <= n)%nat.

(** A computation extends the buffer by [f T] snapshots when it returns,
    and by no more when it raises, [T] being the number of time steps. *)
Definition tracks {A} (f : Z -> nat) (c : St.M World A) : Prop :=
  forall w, grown (is_ok (fst (c w))) (f (horizon w)) w (snd (c w)).

Lemma grown_refl (e : bool) (w w' : World) :
  buffer w' = buffer w -> horizon w' = horizon w -> grown e 0 w w'.
Proof.
  intros Hb Hh. split; [ exact Hh | ]. exists []. rewrite app_nil_r.
  split; [ exact Hb | ]. destruct e; simpl; lia.
Qed.

Lemma grown_trans (e1 e2 : bool) (a b : nat) (w w1 w2 : World) :
  grown e1 a w w1 -> grown e2 b w1 w2 -> grown (e1 && e2) (a + b) w w2.
Proof.
  intros (H1 & x1 & B1 & L1) (H2 & x2 & B2 & L2).
  split; [ congruence | ]. exists (x1 ++ x2).
  split; [ rewrite B2, B1, app_assoc; reflexivity | ].
  rewrite length_app. destruct e1, e2; simpl; lia.
Qed.

Lemma grown_weaken (e : bool) (a b : nat) (w w' : World) :
  (a <= b)%nat -> grown e a w w' -> grown false b w w'.
Proof.
  intros Hab (H & x & B & L). split; [ exact H | ]. exists x.
  split; [ exact B | ]. destruct e; lia.
Qed.

Lemma tracks_bind {A B} (f g h : Z -> nat) (c : St.M World A) (k : A -> St.M World B) :
  (forall t, h t = (f t + g t)%nat) ->
  tracks f c -> (forall x, tracks g (k x)) -> tracks h (St.bind c k).
Proof.
  intros Hh Hc Hk w. specialize (Hc w). unfold St.bind.
  destruct (c w) as [ [ x | e ] w1 ]; cbn [fst snd is_ok] in *.
  - specialize (Hk x w1). rewrite Hh.
    assert (Eh : horizon w1 = horizon w) by apply Hc.
    rewrite Eh in Hk.
    exact (grown_trans Hc Hk).
  - rewrite Hh. apply (grown_weaken (e := false) (a := f (horizon w))); [ lia | exact Hc ].
Qed.

Lemma tracks_get_bind {B} (h : Z -> nat) (k : World -> St.M World B) :
  (forall w0, grown (is_ok (fst (k w0 w0))) (h (horizon w0)) w0 (snd (k w0 w0))) ->
  tracks h (St.bind St.get k).
Proof. intros H w. exact (H w). Qed.

(** A computation that leaves the buffer and the number of time steps as
    they are. *)
Lemma tracks_same {A} (c : St.M World A) :
  (forall w, buffer (snd (c w)) = buffer w /\ horizon (snd (c w)) = horizon w) ->
  tracks (fun _ => O) c.
Proof. intros H w. destruct (H w). apply grown_refl; assumption. Qed.

Lemma tracks_ret {A} (a : A) : tracks (fun _ => O) (St.ret (S := World) a).
Proof. apply tracks_same. intro w. split; reflexivity. Qed.

Lemma tracks_get : tracks (fun _ => O) (St.get (S := World)).
Proof. apply tracks_same. intro w. split; reflexivity. Qed.

Lemma tracks_lift {A} (r : result A) : tracks (fun _ => O) (St.lift (S := World) r).
Proof. apply tracks_same. intro w. split; reflexivity. Qed.

Lemma tracks_raise {A} (f : Z -> nat) (e : exn) :
  tracks f (St.raise (S := World) (A := A) e).
Proof.
  intro w. apply (grown_weaken (e := true) (a := O)); [ lia | ].
  apply grown_refl; reflexivity.
Qed.

Lemma tracks_modify_nets (f : components E -> components E) :
  tracks (fun _ => O) (modify_nets (Rep := Rep) f).
Proof. apply tracks_same. intro w. split; reflexivity. Qed.

Lemma tracks_reparameterizer_call (lg : tensor float) :
  tracks (fun _ => O) (VRNN.reparameterizer_call (N := components E) lg).
Proof.
  apply tracks_same. intro w. unfold VRNN.reparameterizer_call.
  destruct (rep_call _ lg (snd w)) as [ [ r rep ] g ]. split; reflexivity.
Qed.

Lemma tracks_reparameterizer_train (mode : bool) :
  tracks (fun _ => O) (VRNN.reparameterizer_train (N := components E) mode).
Proof. apply tracks_same. intro w. split; reflexivity. Qed.

Lemma tracks_reparameterizer_prior (n : nat) (s : option R) :
  tracks (fun _ => O) (VRNN.reparameterizer_prior (N := components E) n s).
Proof.
  apply tracks_same. intro w. unfold VRNN.reparameterizer_prior.
  destruct (rep_prior _ n s (snd w)) as [ z g ]. split; reflexivity.
Qed.

Lemma tracks_memory_init_state (n : nat) :
  tracks (fun _ => O) (VRNN.memory_init_state (Rep := Rep) (N := components E) n).
Proof.
  apply tracks_same. intro w. unfold VRNN.memory_init_state.
  pose proof (init_state_sets (VRNN.memory (fst w)) n false (snd w)) as [ _ Hb ].
  destruct (Memory.init_state (VRNN.memory (fst w)) n false (snd w)) as [ m g ].
  split; [ exact Hb | reflexivity ].
Qed.

Lemma tracks_draw {A} (f : rng -> A * rng) :
  tracks (fun _ => O)
         (fun w : World => let (x, g) := f (snd w) in (Ok x, (fst w, g))).
Proof.
  apply tracks_same. intro w. destruct (f (snd w)) as [ x g ]. split; reflexivity.
Qed.

Ltac quiet :=
  lazymatch goal with
  | |- tracks _ (St.bind _ _) =>
      apply (@tracks_bind _ _ (fun _ => O) (fun _ => O));
      [ reflexivity | quiet | intro; quiet ]
  | |- tracks _ (St.ret _) => apply tracks_ret
  | |- tracks _ St.get => apply tracks_get
  | |- tracks _ (St.lift _) => apply tracks_lift
  | |- tracks _ (St.raise _) => apply tracks_raise
  | |- tracks _ (modify_nets _) => apply tracks_modify_nets
  | |- tracks _ (VRNN.reparameterizer_call _) => apply tracks_reparameterizer_call
  | |- tracks _ (if ?b then _ else _) => destruct b; quiet
  | |- tracks _ (match ?x with _ => _ end) => destruct x; quiet
  | |- _ => first [ assumption | apply tracks_draw | idtac ]
  end.

Lemma tracks_extract_loop (xargs : list (tensor float)) :
  forall (i : nat) (t : tensor float),
    tracks (fun _ => O) (extract_loop (Rep := Rep) (E := E) _lazy_build_phi_x i xargs t).
Proof.
  induction xargs as [ | x xs IH ]; intros i t; cbn [extract_loop]; quiet.
  apply IH.
Qed.

Lemma tracks_extract_features (x : tensor float) (xargs : list (tensor float)) :
  tracks (fun _ => O) (_extract_features (Rep := Rep) (E := E) _lazy_build_phi_x x xargs).
Proof. unfold _extract_features. quiet. apply tracks_extract_loop. Qed.

Lemma tracks_lazy_build_encoder (n : nat) :
  tracks (fun _ => O) (_lazy_build_encoder (E := E) vrnn_enc n).
Proof. unfold _lazy_build_encoder. quiet. Qed.

Lemma tracks_encode (x : tensor float) (xargs : list (tensor float)) :
  tracks (fun _ => O) (encode (E := E) _lazy_build_phi_x vrnn_enc x xargs).
Proof.
  unfold encode. quiet.
  - apply tracks_extract_features.
  - apply tracks_lazy_build_encoder.
Qed.

Lemma tracks_reparameterize (lm : logits_map) :
  tracks (fun _ => O) (reparameterize (E := E) num_continuous_input lm).
Proof. unfold reparameterize. quiet. Qed.

Lemma tracks_posterior (x : tensor float) (xargs : list (tensor float)) :
  tracks (fun _ => O) (the_posterior x xargs).
Proof.
  unfold posterior. quiet.
  - apply tracks_encode.
  - apply tracks_reparameterize.
Qed.

Lemma tracks_nll_activation (lg : tensor float) :
  tracks (fun _ => O) (nll_activation (Rep := Rep) (E := E) nll_activation_fn lg).
Proof. unfold nll_activation. quiet. Qed.

Lemma tracks_decode_pixelcnn_or_normal (x : tensor float) :
  tracks (fun _ => O) (the_decoder x).
Proof.
  unfold _decode_pixelcnn_or_normal. quiet.
  apply tracks_nll_activation.
Qed.

Lemma tracks_compute_mi_params (d : tensor float) (p : param_map) :
  tracks (fun _ => O) (the_mi_params d p).
Proof.
  unfold _compute_mi_params. quiet.
  - apply tracks_nll_activation.
  - apply tracks_posterior.
Qed.

(** A call of the memory that returns has appended one snapshot. *)
Lemma memory_forward_grows (m m' : Memory.VRNNMemory) (x out : tensor float)
    (r : bool) (g g' : rng) :
  Memory.forward m x r g = Ok (out, m', g') ->
  exists snap, Memory.memory_buffer m' = Memory.memory_buffer m ++ [snap].
Proof.
  unfold Memory.forward.
  set (mg := if r then Memory.init_state m (size0 x) false g else (m, g)).
  assert (Hb : Memory.memory_buffer (fst mg) = Memory.memory_buffer m).
  { subst mg. destruct r; [ apply init_state_sets | reflexivity ]. }
  destruct mg as [ m1 g1 ]. cbn [fst] in Hb.
  destruct (Memory.state m1) as [ s | ]; cbn [Py.bind]; [ | discriminate ].
  destruct (Memory.model m1 x s) as [ o [ h c ] ].
  cbn. intro H. injection H as _ <- _. eexists. cbn. rewrite Hb. reflexivity.
Qed.

Lemma tracks_memory_call (x : tensor float) (r : bool) :
  tracks (fun _ => 1%nat) (memory_call (Rep := Rep) (E := E) x r).
Proof.
  intro w. unfold memory_call.
  destruct (Memory.forward (VRNN.memory (fst w)) x r (snd w))
    as [ [ [ out m ] g ] | e ] eqn:F; cbn [fst snd is_ok].
  - apply memory_forward_grows in F. destruct F as (snap & F).
    split; [ reflexivity | ]. exists [snap]. split; [ exact F | reflexivity ].
  - apply (grown_weaken (e := true) (a := O)); [ lia | ].
    apply grown_refl; reflexivity.
Qed.

Lemma tracks_decode (z_t : latents) (r : bool) :
  tracks (fun _ => 1%nat) (decode (Rep := Rep) (E := E) z_t true r).
Proof.
  unfold decode.
  apply (@tracks_bind _ _ (fun _ => O) (fun _ => 1%nat)); [ reflexivity | quiet | ].
  intro w.
  apply (@tracks_bind _ _ (fun _ => O) (fun _ => 1%nat)); [ reflexivity | quiet | ].
  intro st.
  apply (@tracks_bind _ _ (fun _ => 1%nat) (fun _ => O));
    [ reflexivity | apply tracks_memory_call | ].
  intros _. quiet.
Qed.

Lemma tracks_step (x : tensor float) : tracks (fun _ => 1%nat) (the_step x).
Proof.
  unfold step.
  apply (@tracks_bind _ _ (fun _ => O) (fun _ => 1%nat)); [ reflexivity | quiet | ].
  intro w.
  apply (@tracks_bind _ _ (fun _ => O) (fun _ => 1%nat)); [ reflexivity | | ].
  { destruct (add_img_noise (VRNN.nets (fst w)));
      [ apply (tracks_draw (add_noise_to_imgs x)) | apply tracks_ret ]. }
  intro xi.
  apply (@tracks_bind _ _ (fun _ => O) (fun _ => 1%nat));
    [ reflexivity | apply tracks_posterior | ].
  intros [ z_t params_t ].
  do 4 (apply (@tracks_bind _ _ (fun _ => O) (fun _ => 1%nat));
        [ reflexivity | apply tracks_lift | intros _ ]).
  apply (@tracks_bind _ _ (fun _ => 1%nat) (fun _ => O));
    [ reflexivity | apply tracks_decode | ].
  intro d. quiet.
Qed.

Lemma bind_ok {S A B} (c : St.M S A) (k : A -> St.M S B) (s s' : S) (a : A) :
  c s = (Ok a, s') -> St.bind c k s = k a s'.
Proof. intro H. unfold St.bind. rewrite H. reflexivity. Qed.

Lemma bind_raise {S A B} (c : St.M S A) (k : A -> St.M S B) (s s' : S) (e : exn) :
  c s = (Raise e, s') -> St.bind c k s = (Raise e, s').
Proof. intro H. unfold St.bind. rewrite H. reflexivity. Qed.



(** The lengths of the lists that the loop of [forward] builds. *)
Lemma forward_body_lengths (i : nat) (inp inp1 : VRNN.input)
    (ds ds1 : list (tensor float)) (ps ps1 : list param_map) (w w1 : World) :
  VRNN.forward_body the_step the_mi_params i (inp, ds, ps) w
  = (Ok (inp1, ds1, ps1), w1) ->
  length ds1 = S (length ds) /\ length ps1 = S (length ps).
Proof.
  unfold VRNN.forward_body, St.bind, St.ret, St.raise.
  destruct inp as [ x | l ].
  - destruct (the_step x w) as [ [ [ d p ] | e ] w2 ]; [ | discriminate ].
    destruct (the_mi_params d p w2) as [ [ p' | e ] w3 ]; [ | discriminate ].
    intro H. injection H as <- <- <- <-. rewrite !length_app. simpl. lia.
  - destruct (nth_error l i) as [ x | ]; [ | discriminate ].
    destruct (the_step x w) as [ [ [ d p ] | e ] w2 ]; [ | discriminate ].
    destruct (the_mi_params d p w2) as [ [ p' | e ] w3 ]; [ | discriminate ].
    intro H. injection H as <- <- <- <-. rewrite !length_app. simpl. lia.
Qed.

Lemma forward_loop_lengths (indices : list nat) :
  forall (inp inp' : VRNN.input) (ds ds' : list (tensor float))
         (ps ps' : list param_map) (w w' : World),
    VRNN.forward_loop the_step the_mi_params indices (inp, ds, ps) w
    = (Ok (inp', ds', ps'), w') ->
    length ds' = (length ds + length indices)%nat /\
    length ps' = (length ps + length indices)%nat.
Proof.
  induction indices as [ | i rest IH ]; intros inp inp' ds ds' ps ps' w w' H.
  - cbn in H. injection H as <- <- <- <-. simpl. lia.
  - cbn [VRNN.forward_loop] in H. unfold St.bind at 1 in H.
    destruct (VRNN.forward_body the_step the_mi_params i (inp, ds, ps) w)
      as [ [ [ [ inp1 ds1 ] ps1 ] | e ] w1 ] eqn:B; [ | discriminate H ].
    apply IH in H. destruct H as [ Hd Hp ].
    apply forward_body_lengths in B. simpl. lia.
Qed.

Lemma tracks_forward_body (i : nat) (st : VRNN.loop_state param_map) :
  tracks (fun _ => 1%nat) (VRNN.forward_body the_step the_mi_params i st).
Proof.
  destruct st as [ [ inp ds ] ps ]. unfold VRNN.forward_body.
  apply (@tracks_bind _ _ (fun _ => 1%nat) (fun _ => O)); [ reflexivity | | ].
  - destruct inp as [ x | l ].
    + apply (@tracks_bind _ _ (fun _ => 1%nat) (fun _ => O));
        [ reflexivity | apply tracks_step | ].
      intros [ d p ]. apply tracks_ret.
    + destruct (nth_error l i) as [ x | ]; [ | apply tracks_raise ].
      apply (@tracks_bind _ _ (fun _ => 1%nat) (fun _ => O));
        [ reflexivity | apply tracks_step | ].
      intros [ d p ]. apply tracks_ret.
  - intros [ [ inp1 d ] p ].
    apply (@tracks_bind _ _ (fun _ => O) (fun _ => O));
      [ reflexivity | apply tracks_compute_mi_params | ].
    intro p'. apply tracks_ret.
Qed.

Lemma tracks_forward_loop (indices : list nat) :
  forall st : VRNN.loop_state param_map,
    tracks (fun _ => length indices)
           (VRNN.forward_loop the_step the_mi_params indices st).
Proof.
  induction indices as [ | i rest IH ]; intro st; cbn [VRNN.forward_loop].
  - apply tracks_ret.
  - apply (@tracks_bind _ _ (fun _ => 1%nat) (fun _ => length rest));
      [ reflexivity | apply tracks_forward_body | exact IH ].
Qed.

(** X18.  [forward] and the memory.  [forward] never changes the number
    [T] of time steps.  When it returns, the decoded outputs and the
    parameter maps are [T] each and the history buffer is empty.  When it
    raises, the buffer has not been cleared: it is the buffer of before,
    extended by the snapshots of the steps that ran, at most [T]. *)
Theorem vrnn_forward_memory (input_t : VRNN.input) (w : World) :
  let r := forward ema_call add_noise_to_imgs _lazy_build_phi_x vrnn_enc
                   nll_activation_fn num_continuous_input set_q_z_given_xhat
                   input_t w in
  horizon (snd r) = horizon w /\
  match fst r with
  | Ok (decoded, params) =>
      buffer (snd r) = [] /\
      length decoded = Z.to_nat (horizon w) /\
      length params = Z.to_nat (horizon w)
  | Raise _ =>
      exists extra,
        buffer (snd r) = buffer w ++ extra /\
        (length extra <= Z.to_nat (horizon w))%nat
  end.
Proof.
  intro r. subst r. unfold forward, VRNN.forward.
  destruct input_t as [ x | l ].
  - erewrite bind_ok; [ | reflexivity ].
    erewrite bind_ok; [ | reflexivity ].
    pose proof (tracks_memory_init_state (size0 x) w) as (H1 & e1 & B1 & L1).
    destruct (VRNN.memory_init_state (size0 x) w) as [ [ [] | e ] w1 ] eqn:I.
    2:{ unfold VRNN.memory_init_state in I.
        destruct (Memory.init_state _ _ _ _) in I. discriminate I. }
    cbn [fst snd is_ok] in *.
    destruct e1; [ | discriminate L1 ]. rewrite app_nil_r in B1.
    erewrite bind_ok; [ | exact I ].
    erewrite bind_ok; [ | reflexivity ].
    pose proof (@tracks_forward_loop (seq 0 (Z.to_nat (VRNN.max_time_steps (fst w1))))
                  (VRNN.Tensor x, [], []) w1) as (H2 & e2 & B2 & L2).
    rewrite length_seq in L2.
    destruct (VRNN.forward_loop the_step the_mi_params
                (seq 0 (Z.to_nat (VRNN.max_time_steps (fst w1))))
                (VRNN.Tensor x, [], []) w1)
      as [ [ [ [ inp ds ] ps ] | e ] w2 ] eqn:F; cbn [fst snd is_ok] in *.
    + erewrite bind_ok; [ | exact F ].
      apply forward_loop_lengths in F. rewrite length_seq in F.
      unfold horizon in *. rewrite H1 in F. simpl in F.
      cbn. split; [ congruence | ]. split; [ reflexivity | exact F ].
    + erewrite bind_raise; [ | exact F ]. cbn [fst snd].
      split; [ congruence | ].
      exists e2. unfold horizon in *. rewrite H1 in L2.
      split; [ congruence | exact L2 ].
  - destruct l as [ | x l ]; cbn; (split; [ reflexivity | ]);
      exists []; rewrite app_nil_r; split; try reflexivity; simpl; lia.
Qed.

Lemma tracks_generate_loop (n : nat) :
  forall (d : tensor float) (l : list (tensor float)),
    tracks (fun _ => n) (VRNN.generate_loop the_step n d l).
Proof.
  induction n as [ | n IH ]; intros d l; cbn [VRNN.generate_loop].
  - apply tracks_ret.
  - apply (@tracks_bind _ _ (fun _ => 1%nat) (fun _ => n));
      [ reflexivity | apply tracks_step | ].
    intros [ d1 p ]. apply IH.
Qed.

Lemma tracks_generate (batch_size : nat) (reset_state use_agg : option bool) :
  tracks (fun t => Z.to_nat (t - 1))
         (generate_synthetic_samples ema_call ema_val add_noise_to_imgs
            _lazy_build_phi_x vrnn_enc nll_activation_fn generate_pixel_cnn
            num_continuous_input batch_size reset_state use_agg).
Proof.
  unfold generate_synthetic_samples, VRNN.generate_synthetic_samples.
  apply (@tracks_bind _ _ (fun _ => O) (fun t => Z.to_nat (t - 1)));
    [ reflexivity | | ].
  { destruct (flag reset_state);
      [ apply tracks_memory_init_state | apply tracks_ret ]. }
  intros _.
  apply (@tracks_bind _ _ (fun _ => O) (fun t => Z.to_nat (t - 1)));
    [ reflexivity | apply tracks_get | ].
  intro w0.
  apply (@tracks_bind _ _ (fun _ => O) (fun t => Z.to_nat (t - 1)));
    [ reflexivity | apply tracks_lift | ].
  intro st.
  apply (@tracks_bind _ _ (fun _ => O) (fun t => Z.to_nat (t - 1)));
    [ reflexivity | | ].
  { destruct (flag use_agg); [ | apply tracks_reparameterizer_prior ].
    apply (@tracks_bind _ _ (fun _ => O) (fun _ => O));
      [ reflexivity | apply tracks_reparameterizer_train | intros _ ].
    apply (@tracks_bind _ _ (fun _ => O) (fun _ => O));
      [ reflexivity | apply tracks_reparameterizer_call | intros [ z p ] ].
    apply (@tracks_bind _ _ (fun _ => O) (fun _ => O));
      [ reflexivity | apply tracks_reparameterizer_train | intros _ ].
    apply tracks_ret. }
  intro z.
  apply (@tracks_bind _ _ (fun _ => O) (fun t => Z.to_nat (t - 1)));
    [ reflexivity | apply tracks_get | ].
  intro w1.
  apply (@tracks_bind _ _ (fun _ => O) (fun t => Z.to_nat (t - 1)));
    [ reflexivity | apply tracks_decode_pixelcnn_or_normal | ].
  intro d.
  apply tracks_get_bind. intro w2.
  pose proof (@tracks_bind _ _ (fun _ => Z.to_nat (horizon w2 - 1)) (fun _ => O)
                (fun _ => Z.to_nat (horizon w2 - 1))
                (VRNN.generate_loop the_step
                   (Z.to_nat (VRNN.max_time_steps (fst w2) - 1)) d [d])
                (fun l => St.lift (cat0 l))) as T.
  apply T.
  - intro t. lia.
  - apply tracks_generate_loop.
  - intro l. apply tracks_lift.
Qed.

(** X19.  Generation and the memory.  [generate_synthetic_samples] never
    clears the history buffer and never changes the number [T] of time
    steps: when it returns, the buffer is the buffer of before extended by
    the [T - 1] snapshots of its steps, and when it raises, by at most
    that many. *)
Theorem vrnn_generate_grows_buffer
    (batch_size : nat) (reset_state use_agg : option bool) (w : World) :
  let r := generate_synthetic_samples ema_call ema_val add_noise_to_imgs
             _lazy_build_phi_x vrnn_enc nll_activation_fn generate_pixel_cnn
             num_continuous_input batch_size reset_state use_agg w in
  horizon (snd r) = horizon w /\
  exists extra,
    buffer (snd r) = buffer w ++ extra /\
    match fst r with
    | Ok _ => length extra = Z.to_nat (horizon w - 1)
    | Raise _ => (length extra <= Z.to_nat (horizon w - 1))%nat
    end.
Proof.
  intro r. subst r.
  destruct (tracks_generate batch_size reset_state use_agg w) as (Hh & extra & Hb & Hl).
  split; [ exact Hh | ]. exists extra. split; [ exact Hb | ].
  destruct (fst _); exact Hl.
Qed.

End StepEffects.

(** ** Parts of the time step: the clamped prior variance and the lazy
    feature extractors *)

Section StepParts.
Import VRNNStep.

Context {Rep : Type}.
Variable E : Type.
Variable _lazy_build_phi_x : list nat -> net.
Variable num_continuous_input : Rep -> option nat.









End StepParts.

Section StepPartsExamples.
Import VRNNStep.




End StepPartsExamples.

(** ** The decoder across generation *)

Section GenerateDecoder.
Import VAE.

Context {P Rep : Type} {reparam : Reparameterizer P Rep}.
Variable nll_activation_fn : tensor float -> string -> nat -> tensor float.
Variable generate_pixel_cnn : nat -> tensor float -> rng -> tensor float * rng.



End GenerateDecoder.
